(** * An object-relational mapping layer: fields, tables, queries, persistence

    A shallow embedding of [orm/field.py] and [orm/table.py].

    Python objects are dynamically typed, so every runtime datum is a
    [value]; table rows live in a heap of [instance]s addressed by location,
    because the code shares and mutates them (a nested row saved through its
    parent is the very object the parent's Foreign attribute points to).
    Exceptions are results: every function that can raise returns a
    [result], and stateful code threads a [world] (heap, Store state, and the
    log of Store calls issued so far). *)

From Stdlib Require Import ZArith QArith Bool Ascii String List.
From stdpp Require Import base gmap strings list.

Close Scope Q_scope.
Open Scope string_scope.
Open Scope list_scope.
Open Scope Z_scope.
Set Warnings "-register-all".

(** ** Python values *)

Abbreviation loc := nat.

(** [datetime.datetime], restricted to naive timestamps (tzinfo is None):
    the seven calendar components the layer reads and writes. *)
Record datetime := mk_datetime {
  year : Z; month : Z; day : Z;
  hour : Z; minute : Z; second : Z; microsecond : Z
}.

(** Floats are modelled by the rational they denote (NaN and the infinities
    are outside the model); only comparison and storage are used. *)
Inductive value :=
| VNone
| VInt (z : Z)
| VFloat (q : Q)
| VStr (s : string)
| VDateTime (d : datetime)
| VTuple (vs : list value)
| VObj (l : loc)               (* reference to a Table instance *)
| VCallable (ret : value).     (* a zero-argument callable returning [ret] *)

(** [type(v)], up to the class of a table row (which needs the heap). *)
Inductive pytype :=
| NoneType | int | float | str | datetime_datetime | tuple | table_row | function.

Definition type_of (v : value) : pytype :=
  match v with
  | VNone => NoneType
  | VInt _ => int
  | VFloat _ => float
  | VStr _ => str
  | VDateTime _ => datetime_datetime
  | VTuple _ => tuple
  | VObj _ => table_row
  | VCallable _ => function
  end.

Definition pytype_eqb (a b : pytype) : bool :=
  match a, b with
  | NoneType, NoneType | int, int | float, float | str, str
  | datetime_datetime, datetime_datetime | tuple, tuple
  | table_row, table_row | function, function => true
  | _, _ => false
  end.

Definition is_None (v : value) : bool :=
  match v with VNone => true | _ => false end.


Definition datetime_eqb (a b : datetime) : bool :=
  (year a =? year b) && (month a =? month b) && (day a =? day b) &&
  (hour a =? hour b) && (minute a =? minute b) && (second a =? second b) &&
  (microsecond a =? microsecond b).

(** Python's [==].  Numbers compare across int and float, tuples
    component-wise, rows by identity.  Callables compare by identity, which
    the model does not track; no path of the source compares one. *)
Fixpoint py_eq (a b : value) : bool :=
  match a, b with
  | VNone, VNone => true
  | VInt x, VInt y => x =? y
  | VInt x, VFloat y => Qeq_bool (inject_Z x) y
  | VFloat x, VInt y => Qeq_bool x (inject_Z y)
  | VFloat x, VFloat y => Qeq_bool x y
  | VStr x, VStr y => String.eqb x y
  | VDateTime x, VDateTime y => datetime_eqb x y
  | VTuple xs, VTuple ys =>
      (fix all2 (xs ys : list value) : bool :=
         match xs, ys with
         | [], [] => true
         | x :: xs', y :: ys' => py_eq x y && all2 xs' ys'
         | _, _ => false
         end) xs ys
  | VObj x, VObj y => Nat.eqb x y
  | _, _ => false
  end.

(** [v in xs] *)
Definition py_in (v : value) (xs : list value) : bool := existsb (py_eq v) xs.

(** ** Exceptions

    The [raise] statements of the source are named after the error the
    specification gives them; [py_class] is the Python class actually
    raised.  [Uncaught] is an exception raised by the interpreter itself
    (indexing, unpacking, attribute access, ...), and [StoreError] one that
    comes out of a Store call.  [SystemError] stands for what Python rules
    out and the model does not: a location with no object behind it, a
    table class that was never declared. *)

Inductive pyexc :=
| AttributeError | TypeError | ValueError | IndexError | KeyError
| StopIteration | RecursionError | SystemError | StoreException.

Inductive config_fault :=
| MissingBaseType        (* AttributeError: Must specify base_type ... *)
| WrongDefaultCallable   (* TypeError: Wrong type returned by default callable *)
| WrongDefault           (* TypeError: Wrong type for default *)
| WrongChoice            (* TypeError: Wrong type for choice ... *)
| DefaultNotAChoice      (* TypeError: Invalid default value - not a valid choice *)
| TableNameTaken         (* AttributeError: Table name ... already defined previously *)
| InvalidColumnName.     (* AttributeError: Invalid column name ... *)

Inductive exn :=
| ConfigError (why : config_fault)
| MissingValueError          (* AttributeError: Cannot leave field ... blank *)
| TypeMismatchError          (* TypeError: Setting ...: expecting ... *)
| InvalidChoiceError         (* ValueError: Invalid value ... for field ... *)
| BoundsError                (* ValueError: Latitude value not bounded ... *)
| UnsupportedOperatorError   (* AttributeError: The operator ... is not supported *)
| UnknownFieldError          (* AttributeError: The field ... does not exist *)
| Uncaught (c : pyexc) (what : string)
| StoreError (code : Z).

Definition py_class (e : exn) : pyexc :=
  match e with
  | ConfigError (MissingBaseType | TableNameTaken | InvalidColumnName) => AttributeError
  | ConfigError _ => TypeError
  | MissingValueError | UnsupportedOperatorError | UnknownFieldError => AttributeError
  | TypeMismatchError => TypeError
  | InvalidChoiceError | BoundsError => ValueError
  | Uncaught c _ => c
  | StoreError _ => StoreException
  end.

Definition ill_formed : exn := Uncaught SystemError "ill-formed heap or registry".

Definition is_AttributeError (e : exn) : bool :=
  match py_class e with AttributeError => true | _ => false end.

Inductive result (A : Type) :=
| Ok (a : A)
| Raise (e : exn).
Arguments Ok {A} a.
Arguments Raise {A} e.

Definition rbind {A B} (r : result A) (k : A -> result B) : result B :=
  match r with
  | Ok a => k a
  | Raise e => Raise e
  end.

Notation "'let!' x ':=' c 'in' k" := (rbind c (fun x => k))
  (at level 10, x pattern, c at level 100, k at level 200).

(** ** [datetime.datetime(year, month, day, hour, minute, second, microsecond)] *)

Definition is_leap (y : Z) : bool :=
  (y mod 4 =? 0) && (negb (y mod 100 =? 0) || (y mod 400 =? 0)).

Definition days_in_month (y m : Z) : Z :=
  if m =? 2 then (if is_leap y then 29 else 28)
  else if (m =? 4) || (m =? 6) || (m =? 9) || (m =? 11) then 30
  else 31.

Definition between (lo x hi : Z) : bool := (lo <=? x) && (x <=? hi).

Definition valid_datetime (d : datetime) : bool :=
  between 1 (year d) 9999 && between 1 (month d) 12 &&
  between 1 (day d) (days_in_month (year d) (month d)) &&
  between 0 (hour d) 23 && between 0 (minute d) 59 &&
  between 0 (second d) 59 && between 0 (microsecond d) 999999.

Definition datetime_new (y mo d h mi s us : value) : result datetime :=
  match y, mo, d, h, mi, s, us with
  | VInt y, VInt mo, VInt d, VInt h, VInt mi, VInt s, VInt us =>
      let t := mk_datetime y mo d h mi s us in
      if valid_datetime t then Ok t
      else Raise (Uncaught ValueError "datetime component is out of range")
  | _, _, _, _, _, _, _ =>
      Raise (Uncaught TypeError "an integer is required")
  end.

(** ** Table instances and the heap *)

(** The attributes of a row object: [pk], [version], the shared
    [is_reference_lazy_loaded] flag (absent until a Foreign field sets it),
    and the underscore-prefixed attributes the field descriptors write. *)
Record instance := mk_instance {
  cls : string;                             (* self.__class__.__name__ *)
  pk : value;
  version : value;
  is_reference_lazy_loaded : option bool;
  attrs : gmap string value
}.

Definition setattr (i : instance) (k : string) (v : value) : instance :=
  mk_instance (cls i) (pk i) (version i) (is_reference_lazy_loaded i)
              (<[k:=v]> (attrs i)).

Definition set_lazy (i : instance) (b : bool) : instance :=
  mk_instance (cls i) (pk i) (version i) (Some b) (attrs i).

Definition set_identity (i : instance) (p v : value) : instance :=
  mk_instance (cls i) p v (is_reference_lazy_loaded i) (attrs i).

Definition set_version (i : instance) (v : value) : instance :=
  mk_instance (cls i) (pk i) v (is_reference_lazy_loaded i) (attrs i).

Definition getattr (i : instance) (k : string) : result value :=
  match attrs i !! k with
  | Some v => Ok v
  | None => Raise (Uncaught AttributeError "object has no such attribute")
  end.

Abbreviation heap := (list instance).

(** [type(v) == table] for a table class, named by its registered name
    (unique for the life of the process, see [MetaTable_init]). *)
Definition is_row_of (h : heap) (v : value) (table : string) : bool :=
  match v with
  | VObj l => match h !! l with
              | Some i => String.eqb (cls i) table
              | None => false
              end
  | _ => false
  end.

(** ** Fields (field.py) *)

Record cfg := mk_cfg {
  blank_allowed : bool;
  default : value;
  choices : option (list value)
}.

(** One constructor per Field subclass.  [Foreign] never calls
    [Field.__init__]: it has neither default nor choices. *)
Inductive Field :=
| Integer (c : cfg)
| Float (c : cfg)
| String_ (c : cfg)
| Foreign (referenced_table_type : string) (blank : bool)
| DateTime (c : cfg)
| Coordinate (c : cfg).

(** Calling [base_type] on the initialisation arguments, for the base types
    the subclasses pass in. *)
Definition base_type_call (base_type : pytype) (args : list value) : result value :=
  match base_type, args with
  | int, [] => Ok (VInt 0)
  | float, [] => Ok (VFloat 0)
  | str, [] => Ok (VStr "")
  | datetime_datetime, [y; mo; d; h; mi; s; us] =>
      let! t := datetime_new y mo d h mi s us in Ok (VDateTime t)
  | _, _ => Raise (Uncaught TypeError "bad arguments for base_type()")
  end.

Definition check_choices (ok : value -> bool) (choices : option (list value))
  : result unit :=
  match choices with
  | Some cs => if forallb ok cs then Ok tt else Raise (ConfigError WrongChoice)
  | None => Ok tt
  end.

Definition check_default_is_choice (blank_allowed : bool) (default : value)
    (choices : option (list value)) : result unit :=
  match choices with
  | Some cs =>
      if blank_allowed && negb (py_in default cs)
      then Raise (ConfigError DefaultNotAChoice) else Ok tt
  | None => Ok tt
  end.

(** [Field.__init__(self, blank, default, choices, base_type, *base_type_init_args)].
    A [default] is [None], a literal, or a callable. *)
Definition Field_init (blank : bool) (default : value) (choices : option (list value))
    (base_type : option pytype) (base_type_init_args : list value) : result cfg :=
  match base_type with
  | None => Raise (ConfigError MissingBaseType)
  | Some base_type =>
      let blank_allowed := blank || negb (is_None default) in
      let! resolved :=
        (if is_None default then base_type_call base_type base_type_init_args
         else if pytype_eqb (type_of default) base_type then Ok default
         else match default with
              | VCallable field_default =>
                  if pytype_eqb (type_of field_default) base_type
                  then Ok field_default
                  else Raise (ConfigError WrongDefaultCallable)
              | _ => Raise (ConfigError WrongDefault)
              end) in
      let! _ := check_choices (fun choice => pytype_eqb (type_of choice) base_type)
                              choices in
      let! _ := check_default_is_choice blank_allowed resolved choices in
      Ok (mk_cfg blank_allowed resolved choices)
  end.

(** The [__init__] of the subclasses *)
Definition Integer_init (blank : bool) (default : value) (choices : option (list value))
  : result Field :=
  let! c := Field_init blank default choices (Some int) [] in Ok (Integer c).

Definition Float_init (blank : bool) (default : value) (choices : option (list value))
  : result Field :=
  let! c := Field_init blank default choices (Some float) [] in Ok (Float c).

Definition String_init (blank : bool) (default : value) (choices : option (list value))
  : result Field :=
  let! c := Field_init blank default choices (Some str) [] in Ok (String_ c).

Definition Foreign_init (table : string) (blank : bool) : result Field :=
  Ok (Foreign table blank).

Definition DateTime_init (blank : bool) (default : value) (choices : option (list value))
  : result Field :=
  let! c := Field_init blank default choices (Some datetime_datetime)
              [VInt 1969; VInt 12; VInt 31; VInt 19; VInt 0; VInt 0; VInt 0] in
  Ok (DateTime c).

(** [type(v) == tuple and len(v) == 2 and type(v[0]) == float and type(v[1]) == float] *)
Definition is_float_pair (v : value) : bool :=
  match v with
  | VTuple [VFloat _; VFloat _] => true
  | _ => false
  end.

(** [Coordinate.__init__], which does not go through [Field.__init__] *)
Definition Coordinate_init (blank : bool) (default : value) (choices : option (list value))
  : result Field :=
  let blank_allowed := blank || negb (is_None default) in
  let! resolved :=
    (if is_None default then Ok (VTuple [VInt 0; VInt 0])
     else if is_float_pair default then Ok default
     else match default with
          | VCallable coord_default =>
              if is_float_pair coord_default then Ok coord_default
              else Raise (ConfigError WrongDefaultCallable)
          | _ => Raise (ConfigError WrongDefault)
          end) in
  let! _ := check_choices is_float_pair choices in
  let! _ := check_default_is_choice blank_allowed resolved choices in
  Ok (Coordinate (mk_cfg blank_allowed resolved choices)).

(** *** Attribute names, as [__set_name__] computes them from the name the
    field is declared under *)

Definition attr_name (name : string) : string := "_" +:+ name.

Definition year_attr_name (name : string) := attr_name name +:+ "_year".
Definition month_attr_name (name : string) := attr_name name +:+ "_month".
Definition day_attr_name (name : string) := attr_name name +:+ "_day".
Definition hour_attr_name (name : string) := attr_name name +:+ "_hour".
Definition minute_attr_name (name : string) := attr_name name +:+ "_minute".
Definition second_attr_name (name : string) := attr_name name +:+ "_second".
Definition microsecond_attr_name (name : string) := attr_name name +:+ "_microsecond".
Definition latitude_attr_name (name : string) := attr_name name +:+ "_latitude".
Definition longitude_attr_name (name : string) := attr_name name +:+ "_longitude".

(** [s[1:]] *)
Definition tail_str (s : string) : string :=
  match s with
  | EmptyString => EmptyString
  | String.String _ r => r
  end.

(** *** [__set__] *)

Definition not_a_choice (c : cfg) (value_to_set : value) : bool :=
  match choices c with
  | Some cs => negb (py_in value_to_set cs)
  | None => false
  end.

(** [Field.__set__], shared by Integer and String, reused by Float and
    DateTime. *)
Definition Field_set (c : cfg) (base_type : pytype) (name : string)
    (inst : instance) (val : value) : result instance :=
  let! value_to_set :=
    (if is_None val then
       if blank_allowed c then Ok (default c) else Raise MissingValueError
     else if pytype_eqb (type_of val) base_type then Ok val
     else Raise TypeMismatchError) in
  if not_a_choice c value_to_set then Raise InvalidChoiceError
  else Ok (setattr inst (attr_name name) value_to_set).

Definition Float_set (c : cfg) (name : string) (inst : instance) (val : value)
  : result instance :=
  let val := match val with VInt z => VFloat (inject_Z z) | _ => val end in
  Field_set c float name inst val.

(** [getattr(instance, self.attr_name).year] and its six siblings *)
Definition component (inst : instance) (name : string)
    (proj : datetime -> Z) : result value :=
  let! v := getattr inst (attr_name name) in
  match v with
  | VDateTime d => Ok (VInt (proj d))
  | _ => Raise (Uncaught AttributeError "object has no such attribute")
  end.

Definition DateTime_set (c : cfg) (name : string) (inst : instance) (val : value)
  : result instance :=
  let! i := Field_set c datetime_datetime name inst val in
  let! y := component i name year in
  let i := setattr i (year_attr_name name) y in
  let! mo := component i name month in
  let i := setattr i (month_attr_name name) mo in
  let! d := component i name day in
  let i := setattr i (day_attr_name name) d in
  let! h := component i name hour in
  let i := setattr i (hour_attr_name name) h in
  let! mi := component i name minute in
  let i := setattr i (minute_attr_name name) mi in
  let! s := component i name second in
  let i := setattr i (second_attr_name name) s in
  let! us := component i name microsecond in
  Ok (setattr i (microsecond_attr_name name) us).

(** [v[n]] on a tuple *)
Definition index (v : value) (n : nat) : result value :=
  match v with
  | VTuple vs =>
      match vs !! n with
      | Some x => Ok x
      | None => Raise (Uncaught IndexError "tuple index out of range")
      end
  | _ => Raise (Uncaught TypeError "object is not subscriptable")
  end.

(** [Coordinate.is_valid_coordinate]: [-90.0 <= coord_value <= 90.0] *)
Definition is_valid_coordinate (coord_value : value) : result bool :=
  match coord_value with
  | VInt z => Ok (Qle_bool (inject_Z (-90)) (inject_Z z) &&
                  Qle_bool (inject_Z z) (inject_Z 90))
  | VFloat q => Ok (Qle_bool (inject_Z (-90)) q && Qle_bool q (inject_Z 90))
  | _ => Raise (Uncaught TypeError "'<=' not supported between these operands")
  end.

Definition Coordinate_set (c : cfg) (name : string) (inst : instance) (val : value)
  : result instance :=
  let! value_to_set :=
    (if is_None val then
       if blank_allowed c then Ok (default c) else Raise MissingValueError
     else if is_float_pair val then Ok val
     else Raise TypeMismatchError) in
  let! lat := index value_to_set 0 in
  let! lat_ok := is_valid_coordinate lat in
  let! in_bounds :=
    (if lat_ok then
       let! lon := index value_to_set 1 in is_valid_coordinate lon
     else Ok false) in
  if negb in_bounds then Raise BoundsError
  else if not_a_choice c value_to_set then Raise InvalidChoiceError
  else
    let! lat := index value_to_set 0 in
    let i := setattr inst (latitude_attr_name name) lat in
    let! lon := index value_to_set 1 in
    Ok (setattr i (longitude_attr_name name) lon).

(** [Foreign.__set__].  The lazy-loading flag lives on the instance, not on
    the field. *)
Definition Foreign_set (h : heap) (referenced_table_type : string) (blank : bool)
    (name : string) (inst : instance) (val : value) : result instance :=
  let! i :=
    (if is_None val then
       if negb blank then Raise MissingValueError else Ok inst
     else if is_row_of h val referenced_table_type then Ok (set_lazy inst false)
     else if pytype_eqb (type_of val) int &&
             match is_reference_lazy_loaded inst with
             | Some b => b
             | None => true
             end
          then Ok (set_lazy inst true)
     else Raise TypeMismatchError) in
  Ok (setattr i (attr_name name) val).

(** Dispatch on the class of the descriptor. *)
Definition bind_field (h : heap) (f : Field) (name : string) (inst : instance)
    (val : value) : result instance :=
  match f with
  | Integer c => Field_set c int name inst val
  | Float c => Float_set c name inst val
  | String_ c => Field_set c str name inst val
  | Foreign t blank => Foreign_set h t blank name inst val
  | DateTime c => DateTime_set c name inst val
  | Coordinate c => Coordinate_set c name inst val
  end.

(** *** [__get__] for the fields that keep their value on the instance *)

Definition Field_get (name : string) (inst : instance) : result value :=
  getattr inst (attr_name name).

Definition Coordinate_get (name : string) (inst : instance) : result value :=
  let! lat := getattr inst (latitude_attr_name name) in
  let! lon := getattr inst (longitude_attr_name name) in
  Ok (VTuple [lat; lon]).

(** *** [get_schema_repr_py]: the slots of a field in the flat layout *)

Inductive slot_type :=
| Prim (t : pytype)
| RefTo (table : string).

Definition get_schema_repr_py (f : Field) (name : string) : list (string * slot_type) :=
  match f with
  | Integer _ => [(tail_str (attr_name name), Prim int)]
  | Float _ => [(tail_str (attr_name name), Prim float)]
  | String_ _ => [(tail_str (attr_name name), Prim str)]
  | Foreign t _ => [(tail_str (attr_name name), RefTo t)]
  | DateTime _ =>
      [(tail_str (year_attr_name name), Prim int);
       (tail_str (month_attr_name name), Prim int);
       (tail_str (day_attr_name name), Prim int);
       (tail_str (hour_attr_name name), Prim int);
       (tail_str (minute_attr_name name), Prim int);
       (tail_str (second_attr_name name), Prim int);
       (tail_str (microsecond_attr_name name), Prim int)]
  | Coordinate _ =>
      [(tail_str (latitude_attr_name name), Prim float);
       (tail_str (longitude_attr_name name), Prim float)]
  end.

(** *** [get_decomposed_values] *)

(** [tuple(v)]: the items of a tuple *)
Definition items (v : value) : list value :=
  match v with
  | VTuple vs => vs
  | _ => []
  end.

Definition Foreign_get_decomposed_values (h : heap) (name : string)
    (inst : instance) : result (list value) :=
  let! reference_to_table := getattr inst (attr_name name) in
  if is_None reference_to_table then Ok [VInt 0]
  else
    match is_reference_lazy_loaded inst with
    | None => Raise (Uncaught AttributeError "object has no such attribute")
    | Some true => Ok [reference_to_table]
    | Some false =>
        match reference_to_table with
        | VObj l =>
            match h !! l with
            | Some row => Ok [pk row]
            | None => Raise ill_formed
            end
        | _ => Raise (Uncaught AttributeError "object has no attribute pk")
        end
    end.

Definition DateTime_get_decomposed_values (name : string) (inst : instance)
  : result (list value) :=
  let! y := getattr inst (year_attr_name name) in
  let! mo := getattr inst (month_attr_name name) in
  let! d := getattr inst (day_attr_name name) in
  let! h := getattr inst (hour_attr_name name) in
  let! mi := getattr inst (minute_attr_name name) in
  let! s := getattr inst (second_attr_name name) in
  let! us := getattr inst (microsecond_attr_name name) in
  Ok [y; mo; d; h; mi; s; us].

Definition get_decomposed_values (h : heap) (f : Field) (name : string)
    (inst : instance) : result (list value) :=
  match f with
  | Integer _ | Float _ | String_ _ =>
      let! v := Field_get name inst in Ok [v]
  | Foreign _ _ => Foreign_get_decomposed_values h name inst
  | DateTime _ => DateTime_get_decomposed_values name inst
  | Coordinate _ =>
      let! v := Coordinate_get name inst in Ok (items v)
  end.

(** *** [get_field_assignable_obj_from_stream]

    The iterator is a forward-only cursor: the values not yet consumed. *)

Definition next (iterator : list value) : result (value * list value) :=
  match iterator with
  | v :: rest => Ok (v, rest)
  | [] => Raise (Uncaught StopIteration "")
  end.

Definition get_field_assignable_obj_from_stream (f : Field) (iterator : list value)
  : result (value * list value) :=
  match f with
  | Integer _ | Float _ | String_ _ | Foreign _ _ => next iterator
  | DateTime _ =>
      let! (y, it) := next iterator in
      let! (mo, it) := next it in
      let! (d, it) := next it in
      let! (h, it) := next it in
      let! (mi, it) := next it in
      let! (s, it) := next it in
      let! (us, it) := next it in
      let! t := datetime_new y mo d h mi s us in
      Ok (VDateTime t, it)
  | Coordinate _ =>
      let! (latitude, it) := next iterator in
      let! (longitude, it) := next it in
      Ok (VTuple [latitude; longitude], it)
  end.

(** ** Strings: the operations of [str] the source relies on

    Identifiers are ASCII strings. *)

Definition isalpha_char (a : ascii) : bool :=
  let n := N_of_ascii a in
  ((65 <=? n) && (n <=? 90) || (97 <=? n) && (n <=? 122))%N.

Definition isdigit_char (a : ascii) : bool :=
  let n := N_of_ascii a in ((48 <=? n) && (n <=? 57))%N.

Definition isalnum_char (a : ascii) : bool := isalpha_char a || isdigit_char a.

Fixpoint all_chars (p : ascii -> bool) (s : string) : bool :=
  match s with
  | EmptyString => true
  | String.String a r => p a && all_chars p r
  end.

(** [s.isalnum()]: every character is alphanumeric and there is at least one *)
Definition isalnum (s : string) : bool :=
  match s with
  | EmptyString => false
  | _ => all_chars isalnum_char s
  end.

(** [sep in s] *)
Fixpoint contains (sep s : string) : bool :=
  String.prefix sep s ||
  match s with
  | EmptyString => false
  | String.String _ r => contains sep r
  end.

(** [s.split(sep)] for a non-empty [sep]: cut at each occurrence found
    scanning left to right; [skip] counts the characters of a separator
    still to be passed over, [cur] is the piece being read. *)
Fixpoint split_scan (sep : string) (skip : nat) (s cur : string) : list string :=
  match s with
  | EmptyString => [cur]
  | String.String a r =>
      match skip with
      | S k => split_scan sep k r cur
      | O =>
          if String.prefix sep s
          then cur :: split_scan sep (Nat.pred (String.length sep)) r EmptyString
          else split_scan sep O r (cur +:+ String.String a EmptyString)
      end
  end.

Definition split (sep s : string) : list string := split_scan sep O s EmptyString.

(** [int(s)] for a string of decimal digits *)
Fixpoint int_digits (s : string) (acc : Z) : result Z :=
  match s with
  | EmptyString => Ok acc
  | String.String a r =>
      if isdigit_char a
      then int_digits r (10 * acc + Z.of_N (N_of_ascii a) - 48)
      else Raise (Uncaught ValueError "invalid literal for int()")
  end.

Definition int_of_str (s : string) : result Z :=
  match s with
  | EmptyString => Raise (Uncaught ValueError "invalid literal for int()")
  | _ => int_digits s 0
  end.

(** Zero-padded decimal of a fixed width *)
Fixpoint zero_padded (width : nat) (n : Z) (acc : string) : string :=
  match width with
  | O => acc
  | S w =>
      zero_padded w (n / 10)
        (String.String (ascii_of_N (Z.to_N (48 + n mod 10))) acc)
  end.

(** [str(d)] for a naive [datetime.datetime]: ISO format with a space
    separator; the fraction is printed only when it is not zero. *)
Definition str_datetime (d : datetime) : string :=
  zero_padded 4 (year d) "" +:+ "-" +:+ zero_padded 2 (month d) "" +:+ "-" +:+
  zero_padded 2 (day d) "" +:+ " " +:+ zero_padded 2 (hour d) "" +:+ ":" +:+
  zero_padded 2 (minute d) "" +:+ ":" +:+ zero_padded 2 (second d) "" +:+
  (if microsecond d =? 0 then "" else "." +:+ zero_padded 6 (microsecond d) "").

(** ** Table classes and their registration (table.py, [MetaTable.__init__]) *)

(** A member of a class body: a field descriptor or anything else. *)
Inductive attr :=
| AField (f : Field)
| AOther (v : value).

Record table := mk_table {
  class_name : string;                 (* cls.__name__ *)
  field_names : list string;           (* cls.field_names *)
  dict : list (string * attr)          (* cls.__dict__, in declaration order *)
}.

Fixpoint assoc {A} (k : string) (l : list (string * A)) : option A :=
  match l with
  | [] => None
  | (k', a) :: r => if String.eqb k k' then Some a else assoc k r
  end.

Definition reserved : list string := ["pk"; "version"; "save"; "delete"].

Definition mem_str (s : string) (l : list string) : bool :=
  existsb (String.eqb s) l.

(** The test on a field name: [attr_name[0].isalpha() and attr_name.isalnum()
    and attr_name not in reserved]; indexing the empty string raises. *)
Definition column_name_ok (attr_name : string) : result bool :=
  match attr_name with
  | EmptyString => Raise (Uncaught IndexError "string index out of range")
  | String.String a _ =>
      Ok (isalpha_char a && isalnum attr_name && negb (mem_str attr_name reserved))
  end.

(** The loop of [MetaTable.__init__] over the class body *)
Fixpoint collect_field_names (attrs : list (string * attr)) (field_names : list string)
  : result (list string) :=
  match attrs with
  | [] => Ok field_names
  | (attr_name, AField _) :: rest =>
      let! ok := column_name_ok attr_name in
      if negb ok then Raise (ConfigError InvalidColumnName)
      else collect_field_names rest (field_names ++ [attr_name])
  | (_, AOther _) :: rest => collect_field_names rest field_names
  end.

(** [MetaTable.__init__(cls, name, bases, attrs)], threading the set
    [MetaTable.table_names] of names used so far. *)
Definition MetaTable_init (table_names : gset string) (name : string)
    (attrs : list (string * attr)) : result (table * gset string) :=
  if bool_decide (name ∈ table_names) then Raise (ConfigError TableNameTaken)
  else
    let! field_names := collect_field_names attrs [] in
    Ok (mk_table name field_names attrs, {[name]} ∪ table_names).

(** ** The Store

    The external storage engine, taken as a parameter: a state and the five
    operations of its contract.  It hands out integer pks and versions; row
    values and arguments are whatever the caller holds. *)

Inductive operator := EQ | NE | GT | LT | AL.

Record Store := mk_Store {
  state : Type;
  db_get : state -> string -> value -> result (list value * Z) * state;
  db_scan : state -> string -> operator -> option (string * value) ->
            result (list Z) * state;
  db_insert : state -> string -> list value -> result (Z * Z) * state;
  db_update : state -> string -> value -> list value -> option value ->
              result Z * state;
  db_drop : state -> string -> value -> result unit * state
}.

(** A call issued to the Store *)
Inductive call :=
| Get (table : string) (pk : value)
| Scan (table : string) (op : operator) (arg : option (string * value))
| Insert (table : string) (values : list value)
| Update (table : string) (pk : value) (values : list value)
         (expected_version : option value)
| Drop (table : string) (pk : value).

Record world (db : Store) := mk_world {
  objects : heap;
  store : state db;
  log : list call        (* oldest first *)
}.
Arguments mk_world {db}.
Arguments objects {db}.
Arguments store {db}.
Arguments log {db}.

(** Computations that read and write the world and may raise; the world
    reached when an exception is raised is kept. *)
Definition M (db : Store) (A : Type) : Type := world db -> result A * world db.

Definition ret {db A} (a : A) : M db A := fun w => (Ok a, w).

Definition raise {db A} (e : exn) : M db A := fun w => (Raise e, w).

Definition bind {db A B} (m : M db A) (k : A -> M db B) : M db B :=
  fun w =>
    match m w with
    | (Ok a, w') => k a w'
    | (Raise e, w') => (Raise e, w')
    end.

Definition lift {db A} (r : result A) : M db A := fun w => (r, w).

Notation "x <- c ;; k" := (bind c (fun x => k))
  (at level 100, c at next level, right associativity).

Notation "c ;;; k" := (bind c (fun _ => k))
  (at level 100, right associativity).

(** [for x in l: acc = body(acc, x)] *)
Fixpoint for_each {db A B} (body : B -> A -> M db B) (l : list A) (acc : B) : M db B :=
  match l with
  | [] => ret acc
  | x :: r => acc' <- body acc x ;; for_each body r acc'
  end.

(** ** Rows at run time (table.py) *)

Section Runtime.

Context {db : Store}.
(** The table classes declared so far, by name. *)
Context (classes : gmap string table).

Definition read (self : loc) : M db instance :=
  fun w =>
    match objects w !! self with
    | Some i => (Ok i, w)
    | None => (Raise ill_formed, w)
    end.

Definition write (self : loc) (i : instance) : M db unit :=
  fun w => (Ok tt, mk_world (<[self:=i]> (objects w)) (store w) (log w)).

Definition alloc (i : instance) : M db loc :=
  fun w => (Ok (length (objects w)), mk_world (objects w ++ [i]) (store w) (log w)).

Definition heap_now : M db heap := fun w => (Ok (objects w), w).

(** Store calls: the call is logged, the Store's state advances, and an
    exception of the Store propagates. *)
Definition call_get (table : string) (pk : value) : M db (list value * Z) :=
  fun w =>
    let (r, s) := db_get db (store w) table pk in
    (r, mk_world (objects w) s (log w ++ [Get table pk])).

Definition call_scan (table : string) (op : operator) (arg : option (string * value))
  : M db (list Z) :=
  fun w =>
    let (r, s) := db_scan db (store w) table op arg in
    (r, mk_world (objects w) s (log w ++ [Scan table op arg])).

Definition call_insert (table : string) (values : list value) : M db (Z * Z) :=
  fun w =>
    let (r, s) := db_insert db (store w) table values in
    (r, mk_world (objects w) s (log w ++ [Insert table values])).

Definition call_update (table : string) (pk : value) (values : list value)
    (expected_version : option value) : M db Z :=
  fun w =>
    let (r, s) := db_update db (store w) table pk values expected_version in
    (r, mk_world (objects w) s (log w ++ [Update table pk values expected_version])).

Definition call_drop (table : string) (pk : value) : M db unit :=
  fun w =>
    let (r, s) := db_drop db (store w) table pk in
    (r, mk_world (objects w) s (log w ++ [Drop table pk])).

(** [cls.__dict__[field_name]] *)
Definition class_attr (c : table) (field_name : string) : M db attr :=
  match assoc field_name (dict c) with
  | Some a => ret a
  | None => raise (Uncaught KeyError field_name)
  end.

(** [setattr(self, field_name, val)]: a field declared on the class
    intercepts the write with its [__set__]; any other name is a plain
    instance attribute. *)
Definition setattr_on (c : table) (self : loc) (field_name : string) (val : value)
  : M db unit :=
  inst <- read self ;;
  h <- heap_now ;;
  match assoc field_name (dict c) with
  | Some (AField f) =>
      inst' <- lift (bind_field h f field_name inst val) ;;
      write self inst'
  | _ => write self (setattr inst field_name val)
  end.

(** [kwargs.get(field_name, None)] *)
Definition kwargs_get (kwargs : gmap string value) (field_name : string) : value :=
  match kwargs !! field_name with
  | Some v => v
  | None => VNone
  end.

(** [Table.__init__(self, db, **kwargs)], together with the allocation of
    the object. *)
Definition Table_init (c : table) (kwargs : gmap string value) : M db loc :=
  self <- alloc (mk_instance (class_name c) VNone VNone None ∅) ;;
  for_each (fun _ field_name =>
              setattr_on c self field_name (kwargs_get kwargs field_name))
           (field_names c) tt ;;;
  ret self.

(** The loop of [MetaTable.get] that rebuilds one field after the other
    from the shared cursor. *)
Fixpoint compose_fields (c : table) (names : list string) (iterator : list value)
    (object_vals_dict : gmap string value) : M db (gmap string value) :=
  match names with
  | [] => ret object_vals_dict
  | field_name :: rest =>
      a <- class_attr c field_name ;;
      match a with
      | AField f =>
          r <- lift (get_field_assignable_obj_from_stream f iterator) ;;
          compose_fields c rest (snd r) (<[field_name:=fst r]> object_vals_dict)
      | AOther _ => raise (Uncaught AttributeError "no attribute get_field_assignable_obj_from_stream")
      end
  end.

(** [MetaTable.get(cls, db, pk)] *)
Definition MetaTable_get (c : table) (pk : value) : M db loc :=
  fetched <- call_get (class_name c) pk ;;
  object_vals_dict <- compose_fields c (field_names c) (fst fetched) ∅ ;;
  fetched_object_orm <- Table_init c object_vals_dict ;;
  inst <- read fetched_object_orm ;;
  write fetched_object_orm (set_identity inst pk (VInt (snd fetched))) ;;;
  ret fetched_object_orm.

(** [Foreign.__get__(self, instance, owner)] *)
Definition Foreign_get (referenced_table_type : string) (field_name : string)
    (self : loc) : M db value :=
  inst <- read self ;;
  reference_to_table <- lift (getattr inst (attr_name field_name)) ;;
  if is_None reference_to_table then ret VNone
  else
    match is_reference_lazy_loaded inst with
    | None => raise (Uncaught AttributeError "no attribute is_reference_lazy_loaded")
    | Some false => ret reference_to_table
    | Some true =>
        match classes !! referenced_table_type with
        | Some c => l <- MetaTable_get c reference_to_table ;; ret (VObj l)
        | None => raise ill_formed
        end
    end.

(** [getattr(obj, name, default)]: an AttributeError raised while reading
    the attribute is swallowed and the default returned instead. *)
Definition getattr_default {A} (m : M db A) : M db (option A) :=
  fun w =>
    match m w with
    | (Ok a, w') => (Ok (Some a), w')
    | (Raise e, w') =>
        if is_AttributeError e then (Ok None, w') else (Raise e, w')
    end.

(** The special case of [Table.save] for a Foreign field:
    [foreign_object = getattr(self, field_name, self.__class__)], then
    [if foreign_object.pk is None: foreign_object.save()]. *)
Definition cascade (save : loc -> M db unit) (c : table) (referenced_table_type : string)
    (field_name : string) (self : loc) : M db unit :=
  foreign_object <- getattr_default (Foreign_get referenced_table_type field_name self) ;;
  match foreign_object with
  | Some (VObj l) =>
      row <- read l ;;
      if is_None (pk row) then save l else ret tt
  | Some _ => raise (Uncaught AttributeError "object has no attribute pk")
  | None =>
      (* the class itself: [pk] must be one of its own members *)
      match assoc "pk" (dict c) with
      | Some (AOther v) =>
          if is_None v then raise (Uncaught TypeError "save() missing argument self")
          else ret tt
      | _ => raise (Uncaught AttributeError "type object has no attribute pk")
      end
  end.

(** One turn of the loop of [Table.save]. *)
Definition save_field (save : loc -> M db unit) (c : table) (self : loc)
    (object_field_values : list value) (field_name : string) : M db (list value) :=
  a <- class_attr c field_name ;;
  match a with
  | AField f =>
      match f with
      | Foreign t _ => cascade save c t field_name self
      | _ => ret tt
      end ;;;
      inst <- read self ;;
      h <- heap_now ;;
      field_values <- lift (get_decomposed_values h f field_name inst) ;;
      ret (object_field_values ++ field_values)
  | AOther _ => raise (Uncaught AttributeError "no attribute get_decomposed_values")
  end.

(** The class of a row object *)
Definition class_of (self : loc) : M db table :=
  inst <- read self ;;
  match classes !! cls inst with
  | Some c => ret c
  | None => raise ill_formed
  end.

(** The loop of [Table.save]: the flat list of the row's values *)
Definition collect_values (save : loc -> M db unit) (self : loc) : M db (list value) :=
  c <- class_of self ;;
  for_each (save_field save c self) (field_names c) [].

(** The end of [Table.save]: insert, or update with or without the
    version held. *)
Definition store_row (atomic : bool) (self : loc) (object_field_values : list value)
  : M db unit :=
  inst <- read self ;;
  if is_None (pk inst) then
    r <- call_insert (cls inst) object_field_values ;;
    write self (set_identity inst (VInt (fst r)) (VInt (snd r)))
  else if atomic then
    v <- call_update (cls inst) (pk inst) object_field_values (Some (version inst)) ;;
    write self (set_version inst (VInt v))
  else
    v <- call_update (cls inst) (pk inst) object_field_values None ;;
    write self (set_version inst (VInt v)).

(** [Table.save(self, atomic=True)].  Nested saves recurse; [depth] is the
    number of nested calls the interpreter still allows, and running out of
    it is Python's RecursionError. *)
Fixpoint save (depth : nat) (atomic : bool) (self : loc) : M db unit :=
  match depth with
  | O => raise (Uncaught RecursionError "maximum recursion depth exceeded")
  | S d =>
      object_field_values <- collect_values (save d true) self ;;
      store_row atomic self object_field_values
  end.

(** [Table.delete(self)] *)
Definition delete (self : loc) : M db unit :=
  inst <- read self ;;
  call_drop (cls inst) (pk inst) ;;;
  write self (set_identity inst VNone VNone).

(** *** [MetaTable.filter] *)

(** [k.split("__")] unpacked into column and operator, or the default
    operator when the key has no separator *)
Definition split_key (k : string) : result (string * string) :=
  if contains "__" k then
    match split "__" k with
    | [col_name; op] => Ok (col_name, op)
    | _ => Raise (Uncaught ValueError "wrong number of values to unpack")
    end
  else Ok (k, "eq").

(** The loop over [kwarg.items()]: the last criterion is the one kept. *)
Fixpoint read_criteria (kwarg : list (string * value)) (cur : string * string * value)
  : M db (string * string * value) :=
  match kwarg with
  | [] => ret cur
  | (k, v) :: rest =>
      p <- lift (split_key k) ;;
      val <- match v with
             | VObj l => row <- read l ;; ret (pk row)   (* isinstance(v, Table) *)
             | _ => ret v
             end ;;
      read_criteria rest (fst p, snd p, val)
  end.

(** [mapping[op]] *)
Definition mapping (op : string) : result operator :=
  if String.eqb op "ne" then Ok NE
  else if String.eqb op "gt" then Ok GT
  else if String.eqb op "lt" then Ok LT
  else if String.eqb op "eq" then Ok EQ
  else if String.eqb op "al" then Ok AL
  else Raise (Uncaught KeyError op).

(** The block that takes a [datetime.datetime] criterion apart through its
    printed form [str(value)].  The seven integers replace [values] only on
    the branch without a fraction. *)
Definition parse_printed (printed : string) (values : list value)
  : result (list value) :=
  match split " " printed with
  | [yr_mon_day; hr_to_s] =>
      match split "-" yr_mon_day with
      | [yr; mon; day] =>
          match split ":" hr_to_s with
          | [hr; mit; sec_mic] =>
              if contains "." sec_mic then
                match split "." sec_mic with
                | [sec; mic] => Ok values
                | _ => Raise (Uncaught ValueError "wrong number of values to unpack")
                end
              else
                let! yr := int_of_str yr in
                let! mon := int_of_str mon in
                let! day := int_of_str day in
                let! hr := int_of_str hr in
                let! mit := int_of_str mit in
                let! sec := int_of_str sec_mic in
                Ok [VInt yr; VInt mon; VInt day; VInt hr; VInt mit; VInt sec; VInt 0]
          | _ => Raise (Uncaught ValueError "wrong number of values to unpack")
          end
      | _ => Raise (Uncaught ValueError "wrong number of values to unpack")
      end
  | _ => Raise (Uncaught ValueError "wrong number of values to unpack")
  end.

Definition date_values (d : datetime) (values : list value) : result (list value) :=
  parse_printed (str_datetime d) values.

(** The intersection of the first probe, as a set, with all the probes,
    turned back into a list; the order of the list
    Python builds from the set is left open by the language, here it is the
    order of the first probe. *)
Definition intersection (results : list (list Z)) : list Z :=
  match results with
  | [] => []
  | first :: _ =>
      filter (fun x => forallb (fun r => bool_decide (x ∈ r)) results)
             (remove_dups first)
  end.

Definition is_empty_list {A} (l : list A) : bool :=
  match l with [] => true | _ => false end.

(** The part of [filter] that computes [result], the list of pks. *)
Definition filter_ids (c : table) (kwarg : list (string * value)) : M db (list Z) :=
  match kwarg with
  | [] => call_scan (class_name c) AL None
  | _ =>
      q <- read_criteria kwarg ("", "", VNone) ;;
      let '(col_name, op, val) := q in
      let values := match val with VTuple vs => vs | _ => [val] end in
      if negb (mem_str op ["ne"; "gt"; "lt"; "al"; "eq"])
      then raise UnsupportedOperatorError
      else if negb (String.eqb op "al") &&
              negb (mem_str col_name (field_names c ++ ["id"]))
      then raise UnknownFieldError
      else
        decomposed_col_names <-
          (if String.eqb col_name "id" then ret [col_name]
           else a <- class_attr c col_name ;;
                match a with
                | AField f => ret (map fst (get_schema_repr_py f col_name))
                | AOther _ =>
                    raise (Uncaught AttributeError "no attribute get_schema_repr_py")
                end) ;;
        dated <-
          match val with
          | VDateTime d => vs <- lift (date_values d values) ;; ret (true, vs)
          | _ => ret (false, values)
          end ;;
        let '(is_date, values) := dated in
        o <- lift (mapping op) ;;
        if String.eqb op "al" then call_scan (class_name c) o None
        else
          results <-
            for_each (fun results cv =>
                        r <- call_scan (class_name c) o (Some cv) ;;
                        ret (results ++ [r]))
                     (combine decomposed_col_names values) [] ;;
          match results with
          | [] => raise (Uncaught IndexError "list index out of range")
          | first :: others =>
              let result :=
                if is_empty_list others then first else intersection results in
              (* the loop over [results] leaves after its first turn *)
              ret (if is_date && negb (is_empty_list first) then first else result)
          end
  end.

(** [MetaTable.filter(cls, db, **kwarg)]: every pk is fetched in turn. *)
Definition filter_rows (c : table) (kwarg : list (string * value)) : M db (list loc) :=
  result <- filter_ids c kwarg ;;
  for_each (fun objects id_ =>
              o <- MetaTable_get c (VInt id_) ;; ret (objects ++ [o]))
           result [].

(** [MetaTable.count] *)
Definition count (c : table) (kwarg : list (string * value)) : M db nat :=
  objects <- filter_rows c kwarg ;; ret (length objects).

End Runtime.

(** ** Vocabulary of the statements *)

(** The five field classes that take [blank], [default] and [choices]. *)
Inductive field_class := CInteger | CFloat | CString | CDateTime | CCoordinate.

Definition construct (k : field_class) (blank : bool) (default : value)
    (choices : option (list value)) : result Field :=
  match k with
  | CInteger => Integer_init blank default choices
  | CFloat => Float_init blank default choices
  | CString => String_init blank default choices
  | CDateTime => DateTime_init blank default choices
  | CCoordinate => Coordinate_init blank default choices
  end.

(** The test a default, or what a callable default returns, must pass. *)
Definition accepts (k : field_class) (v : value) : bool :=
  match k with
  | CInteger => pytype_eqb (type_of v) int
  | CFloat => pytype_eqb (type_of v) float
  | CString => pytype_eqb (type_of v) str
  | CDateTime => pytype_eqb (type_of v) datetime_datetime
  | CCoordinate => is_float_pair v
  end.

(** The zero value of each class: [int()], [float()], [str()], the
    timestamp the DateTime class passes to its base type, the origin. *)
Definition zero_value (k : field_class) : value :=
  match k with
  | CInteger => VInt 0
  | CFloat => VFloat 0
  | CString => VStr ""
  | CDateTime => VDateTime (mk_datetime 1969 12 31 19 0 0 0)
  | CCoordinate => VTuple [VInt 0; VInt 0]
  end.

Definition field_cfg (f : Field) : option cfg :=
  match f with
  | Integer c | Float c | String_ c | DateTime c | Coordinate c => Some c
  | Foreign _ _ => None
  end.

(** [self.blank_allowed] *)
Definition field_blank_allowed (f : Field) : bool :=
  match f with
  | Integer c | Float c | String_ c | DateTime c | Coordinate c => blank_allowed c
  | Foreign _ blank => blank
  end.

(** [__get__] of the fields that keep their value on the instance. *)
Definition get_field (f : Field) (name : string) (inst : instance) : result value :=
  match f with
  | Coordinate _ => Coordinate_get name inst
  | _ => Field_get name inst
  end.


(** Both components of a pair pass [is_valid_coordinate]. *)
Definition within_bounds (v : value) : bool :=
  match v with
  | VTuple [a; b] =>
      match is_valid_coordinate a, is_valid_coordinate b with
      | Ok true, Ok true => true
      | _, _ => false
      end
  | _ => false
  end.


(** Every field of the row decomposed against one heap, in the order of
    [names]: the flat list as the specification words it. *)
Fixpoint decompose_all (h : heap) (c : table) (inst : instance) (names : list string)
  : result (list value) :=
  match names with
  | [] => Ok []
  | field_name :: rest =>
      match assoc field_name (dict c) with
      | Some (AField f) =>
          let! field_values := get_decomposed_values h f field_name inst in
          let! others := decompose_all h c inst rest in
          Ok (field_values ++ others)
      | Some (AOther _) =>
          Raise (Uncaught AttributeError "no attribute get_decomposed_values")
      | None => Raise (Uncaught KeyError field_name)
      end
  end.

(** The number of slots the fields [names] occupy in the flat layout. *)
Fixpoint slots_of (c : table) (names : list string) : nat :=
  match names with
  | [] => O
  | field_name :: rest =>
      match assoc field_name (dict c) with
      | Some (AField f) => length (get_schema_repr_py f field_name)
      | _ => O
      end + slots_of c rest
  end.

(** A field as a declaration can produce it. *)
Definition declared (f : Field) : Prop :=
  (exists table blank, f = Foreign table blank) \/
  (exists k blank default choices, construct k blank default choices = Ok f).

Section Frame.

Context {db : Store}.

(** A pk the Store hands out on some insert. *)
Definition issued (p : Z) : Prop :=
  exists s table values v s', db_insert db s table values = (Ok (p, v), s').

(** What a later world may differ in from an earlier one: the log only
    grows; a row keeps its class, its attributes and its flag; its pk stays,
    unless it was [None] and an insert into the row's table gave it one. *)
Definition row_advances (delta : list call) (i i' : instance) : Prop :=
  cls i' = cls i /\ attrs i' = attrs i /\
  is_reference_lazy_loaded i' = is_reference_lazy_loaded i /\
  (pk i' = pk i \/
   (pk i = VNone /\
    exists p values, pk i' = VInt p /\ issued p /\ In (Insert (cls i) values) delta)).

Definition advances (w w' : world db) : Prop :=
  exists delta,
    log w' = log w ++ delta /\
    forall l i, objects w !! l = Some i ->
      exists i', objects w' !! l = Some i' /\ row_advances delta i i'.

Definition preserves {A} (m : M db A) : Prop :=
  forall w r w', m w = (r, w') -> advances w w'.


End Frame.

Arguments issued db p : clear implicits.
Arguments row_advances db delta i i' : clear implicits.

(** ** A Store to run the code against

    Rows are kept in memory; pks are handed out in sequence starting at the
    counter's value, every write bumps the row's version, an atomic update
    with a stale version is a conflict.  [scan] answers from a fixed table
    of probe results, which is all the query code can observe of it. *)

Record stored := mk_stored {
  s_table : string; s_pk : Z; s_values : list value; s_version : Z
}.

Record memory := mk_memory { next_pk : Z; rows : list stored }.

Definition NotFound : exn := StoreError 1.
Definition Conflict : exn := StoreError 2.

Definition is_row (table : string) (pk : value) (r : stored) : bool :=
  String.eqb (s_table r) table && py_eq pk (VInt (s_pk r)).

Definition memory_get (m : memory) (table : string) (pk : value)
  : result (list value * Z) * memory :=
  match find (is_row table pk) (rows m) with
  | Some r => (Ok (s_values r, s_version r), m)
  | None => (Raise NotFound, m)
  end.

Definition memory_insert (m : memory) (table : string) (values : list value)
  : result (Z * Z) * memory :=
  (Ok (next_pk m, 1),
   mk_memory (next_pk m + 1) (rows m ++ [mk_stored table (next_pk m) values 1])).

Definition memory_update (m : memory) (table : string) (pk : value)
    (values : list value) (expected_version : option value)
  : result Z * memory :=
  match find (is_row table pk) (rows m) with
  | None => (Raise NotFound, m)
  | Some r =>
      let stale := match expected_version with
                   | Some v => negb (py_eq v (VInt (s_version r)))
                   | None => false
                   end in
      if stale then (Raise Conflict, m)
      else
        (Ok (s_version r + 1),
         mk_memory (next_pk m)
           (map (fun x => if is_row table pk x
                          then mk_stored table (s_pk r) values (s_version r + 1)
                          else x) (rows m)))
  end.

Definition memory_drop (m : memory) (table : string) (pk : value)
  : result unit * memory :=
  match find (is_row table pk) (rows m) with
  | None => (Raise NotFound, m)
  | Some _ =>
      (Ok tt, mk_memory (next_pk m) (filter (fun x => negb (is_row table pk x)) (rows m)))
  end.

Definition memory_store (probe : operator -> option (string * value) -> list Z)
  : Store :=
  mk_Store memory memory_get
    (fun m table op arg => (Ok (probe op arg), m))
    memory_insert memory_update memory_drop.

Definition empty_world (probe : operator -> option (string * value) -> list Z)
  : world (memory_store probe) :=
  @mk_world (memory_store probe) [] (mk_memory 1 []) [].

(** ** Example schemas *)

(** [Person(name: String, age: Integer(default=0))] *)
Definition Person : table :=
  mk_table "Person" ["name"; "age"]
    [("name", AField (String_ (mk_cfg false (VStr "") None)));
     ("age", AField (Integer (mk_cfg true (VInt 0) None)))].

(** [Event(when: DateTime)] *)
Definition epoch : datetime := mk_datetime 1969 12 31 19 0 0 0.

Definition when_field : Field := DateTime (mk_cfg false (VDateTime epoch) None).

Definition Event : table :=
  mk_table "Event" ["when"] [("when", AField when_field)].

(** [Place(at: Coordinate(default=(100.0, 0.0)))] *)
Definition far_north : value := VTuple [VFloat (inject_Z 100); VFloat (inject_Z 0)].

Definition at_field : Field := Coordinate (mk_cfg true far_north None).

(** [Author(name: String)] and [Book(title: String, author: Foreign(Author, blank=True))] *)
Definition Author : table :=
  mk_table "Author" ["name"]
    [("name", AField (String_ (mk_cfg false (VStr "") None)))].

Definition Book : table :=
  mk_table "Book" ["title"; "author"]
    [("title", AField (String_ (mk_cfg false (VStr "") None)));
     ("author", AField (Foreign "Author" true))].

Definition library : gmap string table :=
  <["Person":=Person]> (<["Event":=Event]> (<["Author":=Author]> (<["Book":=Book]> ∅))).

Definition no_probe : operator -> option (string * value) -> list Z := fun _ _ => [].

(** The timestamp 2020-01-02T03:04:05.000006 *)
Definition stamp : datetime := mk_datetime 2020 1 2 3 4 5 6.

Definition blank_row (table : string) : instance :=
  mk_instance table VNone VNone None ∅.

Definition north_east : value :=
  VTuple [VFloat (inject_Z 45); VFloat (inject_Z 45)].


(** The same instant without a fraction *)
Definition stamp_whole : datetime := mk_datetime 2020 1 2 3 4 5 0.

(** Probes answered by column: no row matches on the year, row 1 matches on
    every other column. *)
Definition year_misses (op : operator) (arg : option (string * value)) : list Z :=
  match arg with
  | Some (col, _) => if String.eqb col "when_year" then [] else [1]
  | None => [1]
  end.

(** A reference held by a criterion points to a row of the heap. *)
Definition live {db} (w : world db) (v : value) : Prop :=
  match v with
  | VObj l => is_Some (objects w !! l)
  | _ => True
  end.

(** A persisted Person row and the world that holds it *)
Definition ann : instance :=
  mk_instance "Person" (VInt 1) (VInt 1) None
    (<["_name":=VStr "Ann"]> (<["_age":=VInt 0]> ∅)).

Definition ann_world : world (memory_store no_probe) :=
  @mk_world (memory_store no_probe) [ann]
    (mk_memory 2 [mk_stored "Person" 1 [VStr "Ann"; VInt 0] 1]) [].


(** Computations that only add objects to the heap and calls to the log. *)
Definition appends {db A} (m : M db A) : Prop :=
  forall w r w', m w = (r, w') ->
    exists extra delta,
      objects w' = objects w ++ extra /\ log w' = log w ++ delta.

Definition is_Foreign (f : Field) : bool :=
  match f with
  | Foreign _ _ => true
  | _ => false
  end.

(** A field of the class that is not a reference and whose slots can be
    read off the instance. *)
Definition plain_field (c : table) (h : heap) (inst : instance) (n : string) : Prop :=
  exists f vs, assoc n (dict c) = Some (AField f) /\ is_Foreign f = false /\
               get_decomposed_values h f n inst = Ok vs.

(** A Book whose author was left unset, alone in the heap *)
Definition orphan_book : instance :=
  mk_instance "Book" VNone VNone None
    (<["_title":=VStr "T"]> (<["_author":=VNone]> ∅)).

Definition orphan_world : world (memory_store no_probe) :=
  @mk_world (memory_store no_probe) [orphan_book] (mk_memory 1 []) [].

(** Ann before her first save, alone in the heap of a fresh Store *)
Definition ann_new : instance :=
  mk_instance "Person" VNone VNone None
    (<["_name":=VStr "Ann"]> (<["_age":=VInt 0]> ∅)).

Definition ann_new_world : world (memory_store no_probe) :=
  @mk_world (memory_store no_probe) [ann_new] (mk_memory 1 []) [].

(** A new Book holding a new Author by value *)
Definition new_author : instance :=
  mk_instance "Author" VNone VNone None (<["_name":=VStr "Ann"]> ∅).

Definition new_book : instance :=
  mk_instance "Book" VNone VNone (Some false)
    (<["_title":=VStr "T"]> (<["_author":=VObj 0%nat]> ∅)).

Definition shelf_world : world (memory_store no_probe) :=
  @mk_world (memory_store no_probe) [new_author; new_book] (mk_memory 1 []) [].

(** A string without the character [c] *)
Definition lacks (c : ascii) (s : string) : bool :=
  all_chars (fun x => negb (Ascii.eqb x c)) s.

(** The one-character separator *)
Definition sep (c : ascii) : string := String.String c EmptyString.

(** The character of a decimal digit *)
Definition digit (r : Z) : ascii := ascii_of_N (Z.to_N (48 + r)).



(** One turn of the loop of [filter] that probes the Store *)
Definition scan_step {db} (table : string) (o : operator)
    (results : list (list Z)) (cv : string * value) : M db (list (list Z)) :=
  r <- call_scan table o (Some cv) ;; ret (results ++ [r]).


(** The field of class [k] with configuration [c]. *)
Definition field_of (k : field_class) (c : cfg) : Field :=
  match k with
  | CInteger => Integer c
  | CFloat => Float c
  | CString => String_ c
  | CDateTime => DateTime c
  | CCoordinate => Coordinate c
  end.


(** The default a constructor settles on, when it accepts the one given. *)
Definition resolved (k : field_class) (d : value) : option value :=
  match d with
  | VNone => Some (zero_value k)
  | VCallable r => if accepts k r then Some r else None
  | _ => if accepts k d then Some d else None
  end.

(** What [__set_name__] appends to the attribute name of a field to name
    the attributes the field keeps on a row. *)
Definition suffixes : list string :=
  [""; "_year"; "_month"; "_day"; "_hour"; "_minute"; "_second"; "_microsecond";
   "_latitude"; "_longitude"].

(** The attribute [key] is one a field declared as [name] may write. *)
Definition stored_under (key name : string) : Prop :=
  exists s, In s suffixes /\ key = attr_name name +:+ s.


(** The loop of [Table.__init__] as the row under construction sees it.
    The row sits at the end of the heap, after the objects [h]; each field
    name is set in turn to what [kwargs] gives for it. *)
Fixpoint bind_all (h : heap) (c : table) (names : list string)
    (kwargs : gmap string value) (inst : instance) : result instance :=
  match names with
  | [] => Ok inst
  | field_name :: rest =>
      let! inst' :=
        match assoc field_name (dict c) with
        | Some (AField f) =>
            bind_field (h ++ [inst]) f field_name inst (kwargs_get kwargs field_name)
        | _ => Ok (setattr inst field_name (kwargs_get kwargs field_name))
        end in
      bind_all h c rest kwargs inst'
  end.

(** The value [__set__] goes on with: the default when None is given, else
    the value given, which a Float field turns into a float when it is an
    int. *)
Definition value_to_set (f : Field) (x : value) : value :=
  match f with
  | Foreign _ _ => x
  | Float c =>
      if is_None x then default c
      else match x with VInt z => VFloat (inject_Z z) | _ => x end
  | Integer c | String_ c | DateTime c | Coordinate c =>
      if is_None x then default c else x
  end.





(** The value [filter] compares with: a row given as criterion stands for
    its pk. *)
Definition criterion_value {db} (w : world db) (x : value) : option value :=
  match x with
  | VObj l => option_map pk (objects w !! l)
  | _ => Some x
  end.

(** Neither a tuple nor a timestamp. *)
Definition is_scalar (v : value) : bool :=
  match v with
  | VTuple _ | VDateTime _ => false
  | _ => true
  end.

(** The first column of the slots of a field declared as [col]. *)
Definition first_column (f : Field) (col : string) : string :=
  match f with
  | DateTime _ => col +:+ "_year"
  | Coordinate _ => col +:+ "_latitude"
  | _ => col
  end.

(** [Node(next: Foreign(Node, blank=True))], and two new nodes that hold
    each other by value *)
Definition Node : table :=
  mk_table "Node" ["next"] [("next", AField (Foreign "Node" true))].

Definition ring_world : world (memory_store no_probe) :=
  @mk_world (memory_store no_probe)
    [mk_instance "Node" VNone VNone (Some false) (<["_next" := VObj 1%nat]> ∅);
     mk_instance "Node" VNone VNone (Some false) (<["_next" := VObj 0%nat]> ∅)]
    (mk_memory 1 []) [].

(** A Book whose author is held as the pk 7 while the flag of the row says
    that references are held as objects *)
Definition torn_book : instance :=
  mk_instance "Book" VNone VNone (Some false)
    (<["_title":=VStr "T"]> (<["_author":=VInt 7]> ∅)).

Definition torn_world : world (memory_store no_probe) :=
  @mk_world (memory_store no_probe) [torn_book] (mk_memory 1 []) [].



(** * Properties *)

(** ** Field construction *)

Lemma pytype_eqb_eq a b : pytype_eqb a b = true <-> a = b.
Proof. destruct a, b; simpl; split; intros H; try reflexivity; discriminate H. Qed.






(** ** Attributes of an instance *)

Lemma append_inj_l (s t1 t2 : string) : s +:+ t1 = s +:+ t2 -> t1 = t2.
Proof.
  induction s as [|a s IH]; simpl; intros H; [exact H|].
  injection H as H. exact (IH H).
Qed.

Lemma append_ne_r (s t : string) : t <> "" -> s <> s +:+ t.
Proof.
  intros Ht. induction s as [|a s IH]; simpl; intros H.
  - apply Ht. symmetry. exact H.
  - injection H as H. exact (IH H).
Qed.

Lemma getattr_setattr_eq i k v : getattr (setattr i k v) k = Ok v.
Proof. unfold getattr, setattr. simpl. rewrite lookup_insert_eq. reflexivity. Qed.

Lemma getattr_setattr_ne i k k' v :
  k <> k' -> getattr (setattr i k v) k' = getattr i k'.
Proof.
  intros H. unfold getattr, setattr. simpl.
  rewrite lookup_insert_ne by exact H. reflexivity.
Qed.

(** The attribute names one field writes are pairwise distinct. *)
Ltac key_ne :=
  unfold year_attr_name, month_attr_name, day_attr_name, hour_attr_name,
    minute_attr_name, second_attr_name, microsecond_attr_name,
    latitude_attr_name, longitude_attr_name;
  first
    [ apply append_ne_r; discriminate
    | let H := fresh in
      intros H; symmetry in H; revert H; apply append_ne_r; discriminate
    | let H := fresh in
      intros H; apply append_inj_l in H; discriminate H ].

Ltac attr_simpl :=
  repeat first
    [ rewrite getattr_setattr_eq
    | rewrite getattr_setattr_ne by key_ne ].

Ltac attr_simpl_in H :=
  repeat first
    [ rewrite getattr_setattr_eq in H
    | rewrite getattr_setattr_ne in H by key_ne ].

(** ** Binding *)

Lemma Field_set_Ok c bt name inst val i :
  Field_set c bt name inst val = Ok i ->
  exists v, i = setattr inst (attr_name name) v /\ not_a_choice c v = false /\
    ((is_None val = true /\ blank_allowed c = true /\ v = default c) \/
     (is_None val = false /\ type_of val = bt /\ v = val)).
Proof.
  unfold Field_set. intros H.
  destruct (is_None val) eqn:Hn.
  - destruct (blank_allowed c) eqn:Hb; simpl in H; [|discriminate].
    destruct (not_a_choice c (default c)) eqn:Hc; [discriminate|].
    injection H as <-. eexists. split; [reflexivity|]. split; [exact Hc|].
    left. repeat split.
  - destruct (pytype_eqb (type_of val) bt) eqn:Ht; simpl in H; [|discriminate].
    destruct (not_a_choice c val) eqn:Hc; [discriminate|].
    injection H as <-. eexists. split; [reflexivity|]. split; [exact Hc|].
    right. repeat split. apply pytype_eqb_eq. exact Ht.
Qed.

Lemma type_datetime v : type_of v = datetime_datetime -> exists d, v = VDateTime d.
Proof. destruct v; simpl; intros H; try discriminate. eexists; reflexivity. Qed.


Lemma is_float_pair_inv v :
  is_float_pair v = true -> exists a b, v = VTuple [VFloat a; VFloat b].
Proof.
  destruct v as [| | | | |vs| |]; simpl; try discriminate.
  destruct vs as [|[] [|[] [|]]]; simpl; try discriminate.
  intros _. eexists _, _. reflexivity.
Qed.


Lemma within_bounds_inv v :
  within_bounds v = true ->
  exists a b, v = VTuple [a; b] /\
    is_valid_coordinate a = Ok true /\ is_valid_coordinate b = Ok true.
Proof.
  destruct v as [| | | | |vs| |]; simpl; try discriminate.
  destruct vs as [|a [|b [|]]]; try discriminate.
  destruct (is_valid_coordinate a) as [[]|] eqn:Ha; try discriminate;
    destruct (is_valid_coordinate b) as [[]|] eqn:Hb; try discriminate.
  intros _. exists a, b. repeat split; assumption.
Qed.

Lemma Coordinate_set_None c name inst :
  blank_allowed c = true -> not_a_choice c (default c) = false ->
  within_bounds (default c) = true ->
  exists i, Coordinate_set c name inst VNone = Ok i /\
            Coordinate_get name i = Ok (default c).
Proof.
  intros Hb Hc Hw. apply within_bounds_inv in Hw.
  destruct Hw as (a & b & Hd & Ha & Hb').
  unfold Coordinate_set. simpl. rewrite Hb, Hd in *. simpl.
  rewrite Ha. simpl. rewrite Hb'. simpl. rewrite Hc.
  eexists. split; [reflexivity|]. unfold Coordinate_get. attr_simpl. reflexivity.
Qed.

(** What the constructors guarantee of the configuration they return. *)
Lemma Field_init_inv blank d choices bt args c :
  Field_init blank d choices (Some bt) args = Ok c ->
  (blank_allowed c = true -> not_a_choice c (default c) = false) /\
  (type_of (default c) = bt \/ base_type_call bt args = Ok (default c)).
Proof.
  unfold Field_init. intros H.
  match type of H with
  | rbind ?x _ = _ => destruct x as [v|e] eqn:E; simpl in H; [|discriminate]
  end.
  destruct (check_choices _ choices); simpl in H; [|discriminate].
  destruct (check_default_is_choice _ v choices) eqn:Hc; simpl in H; [|discriminate].
  injection H as <-. simpl. split.
  - intros Hb. unfold not_a_choice, check_default_is_choice in *. simpl.
    destruct choices as [cs|]; [|reflexivity]. rewrite Hb in Hc. simpl in Hc.
    destruct (py_in v cs); [reflexivity|discriminate].
  - destruct (is_None d); [right; exact E|]. left.
    destruct (pytype_eqb (type_of d) bt) eqn:Ht.
    + injection E as <-. apply pytype_eqb_eq. exact Ht.
    + destruct d; try discriminate.
      destruct (pytype_eqb (type_of d) bt) eqn:Ht'; [|discriminate].
      injection E as <-. apply pytype_eqb_eq. exact Ht'.
Qed.

Lemma Coordinate_init_inv blank d choices c :
  Coordinate_init blank d choices = Ok (Coordinate c) ->
  (blank_allowed c = true -> not_a_choice c (default c) = false) /\
  (default c = VTuple [VInt 0; VInt 0] \/ is_float_pair (default c) = true).
Proof.
  unfold Coordinate_init. intros H.
  match type of H with
  | rbind ?x _ = _ => destruct x as [v|e] eqn:E; simpl in H; [|discriminate]
  end.
  destruct (check_choices _ choices); simpl in H; [|discriminate].
  destruct (check_default_is_choice _ v choices) eqn:Hc; simpl in H; [|discriminate].
  injection H as <-. simpl. split.
  - intros Hb. unfold not_a_choice, check_default_is_choice in *. simpl.
    destruct choices as [cs|]; [|reflexivity]. rewrite Hb in Hc. simpl in Hc.
    destruct (py_in v cs); [reflexivity|discriminate].
  - destruct (is_None d); [left; congruence|]. right.
    destruct (is_float_pair d) eqn:Ht; [congruence|].
    destruct d; try discriminate.
    destruct (is_float_pair d) eqn:Ht'; [congruence|discriminate].
Qed.

Lemma Field_set_None c bt name inst :
  blank_allowed c = true -> not_a_choice c (default c) = false ->
  Field_set c bt name inst VNone = Ok (setattr inst (attr_name name) (default c)).
Proof. intros Hb Hc. unfold Field_set. simpl. rewrite Hb. simpl. rewrite Hc. reflexivity. Qed.

Lemma DateTime_set_None c name inst d :
  blank_allowed c = true -> not_a_choice c (default c) = false ->
  default c = VDateTime d ->
  exists i, DateTime_set c name inst VNone = Ok i /\
            Field_get name i = Ok (default c).
Proof.
  intros Hb Hc Hd. unfold DateTime_set. rewrite Field_set_None by assumption.
  rewrite Hd. simpl. unfold component.
  repeat (attr_simpl; simpl). eexists. split; [reflexivity|].
  unfold Field_get. attr_simpl. reflexivity.
Qed.

Lemma bounds_of_pair a b :
  within_bounds (VTuple [VFloat a; VFloat b]) = false ->
  forall c name inst, blank_allowed c = true ->
    default c = VTuple [VFloat a; VFloat b] ->
    Coordinate_set c name inst VNone = Raise BoundsError.
Proof.
  intros Hw c name inst Hb Hd. unfold Coordinate_set. simpl. rewrite Hb, Hd.
  simpl in *.
  destruct (Qle_bool (inject_Z (-90)) a && Qle_bool a (inject_Z 90)); simpl;
    [|reflexivity].
  destruct (Qle_bool (inject_Z (-90)) b && Qle_bool b (inject_Z 90)); simpl;
    [discriminate|reflexivity].
Qed.

Lemma construct_shape k blank d choices f :
  construct k blank d choices = Ok f ->
  exists c, field_cfg f = Some c /\
    (blank_allowed c = true -> not_a_choice c (default c) = false) /\
    match f with
    | DateTime _ => exists t, default c = VDateTime t
    | Coordinate _ =>
        default c = VTuple [VInt 0; VInt 0] \/ is_float_pair (default c) = true
    | _ => True
    end.
Proof.
  intros H. destruct k; simpl in H;
    unfold Integer_init, Float_init, String_init, DateTime_init in H.
  1-4: match type of H with
       | rbind ?x _ = _ => destruct x as [c|e] eqn:E; simpl in H; [|discriminate]
       end; injection H as <-; exists c; split; [reflexivity|];
       apply Field_init_inv in E; destruct E as [E1 E2]; split; [exact E1|];
       try exact I.
  - destruct E2 as [E2|E2].
    + apply type_datetime. exact E2.
    + vm_compute in E2. injection E2 as E2. eexists. symmetry. exact E2.
  - assert (exists c, f = Coordinate c) as [c ->].
    { unfold Coordinate_init in H.
      match type of H with
      | rbind ?x _ = _ => destruct x; simpl in H; [|discriminate]
      end.
      destruct (check_choices _ choices); simpl in H; [|discriminate].
      destruct (check_default_is_choice _ _ choices); simpl in H; [|discriminate].
      injection H as <-. eexists. reflexivity. }
    exists c. split; [reflexivity|]. apply Coordinate_init_inv in H. exact H.
Qed.

(** ** None bound to a field *)

(** C5, as the code has it.  Binding None to a declared field fails with
    MissingValueError when the field does not allow blanks.  When it does,
    an Integer, Float, String or DateTime field stores its default, which a
    read then returns; a Coordinate field does so if both components of its
    default lie within the bound, and fails with the bounds error otherwise;
    a Foreign field has no default and stays unset, a read returning None. *)
Theorem bind_None (h : heap) (f : Field) (name : string) (inst : instance) :
  declared f ->
  (field_blank_allowed f = false ->
     bind_field h f name inst VNone = Raise MissingValueError) /\
  (field_blank_allowed f = true ->
     match f with
     | Foreign t _ =>
         exists i, bind_field h f name inst VNone = Ok i /\
           forall db classes (w : world db) self, objects w !! self = Some i ->
             Foreign_get classes t name self w = (Ok VNone, w)
     | Coordinate c =>
         if within_bounds (default c)
         then exists i, bind_field h f name inst VNone = Ok i /\
                        get_field f name i = Ok (default c)
         else bind_field h f name inst VNone = Raise BoundsError
     | Integer c | Float c | String_ c | DateTime c =>
         exists i, bind_field h f name inst VNone = Ok i /\
                   get_field f name i = Ok (default c)
     end).
Proof.
  intros Hd. split.
  - intros Hb. destruct f; simpl in *;
      unfold Float_set, DateTime_set, Coordinate_set, Foreign_set, Field_set;
      simpl; rewrite Hb; reflexivity.
  - intros Hb. destruct Hd as [(t & b & ->)|(k & blank & d & ch & Hc)].
    + simpl in *. unfold Foreign_set. simpl. rewrite Hb. simpl.
      eexists. split; [reflexivity|]. intros db classes w self Hw.
      unfold Foreign_get, bind, read, lift. rewrite Hw.
      rewrite getattr_setattr_eq. reflexivity.
    + apply construct_shape in Hc. destruct Hc as (c & Hf & Hch & Hs).
      destruct f; simpl in Hf; try discriminate; injection Hf as ->;
        simpl in Hb; specialize (Hch Hb); simpl.
      * rewrite Field_set_None by assumption. eexists. split; [reflexivity|].
        unfold Field_get. attr_simpl. reflexivity.
      * unfold Float_set. rewrite Field_set_None by assumption.
        eexists. split; [reflexivity|]. unfold Field_get. attr_simpl. reflexivity.
      * rewrite Field_set_None by assumption. eexists. split; [reflexivity|].
        unfold Field_get. attr_simpl. reflexivity.
      * destruct Hs as [t Ht]. eapply DateTime_set_None; eassumption.
      * destruct (within_bounds (default c)) eqn:Hw.
        -- apply Coordinate_set_None; assumption.
        -- destruct Hs as [Hs|Hs].
           ++ rewrite Hs in Hw. vm_compute in Hw. discriminate.
           ++ apply is_float_pair_inv in Hs. destruct Hs as (a & b & Hs).
              rewrite Hs in Hw. eapply bounds_of_pair; eassumption.
Qed.

Lemma bind_None_witness :
  bind_field [] (Integer (mk_cfg false (VInt 0) None)) "age" (blank_row "Person") VNone
  = Raise MissingValueError.
Proof.
  apply (proj1 (bind_None [] (Integer (mk_cfg false (VInt 0) None)) "age"
                          (blank_row "Person")
                          (or_intror (ex_intro _ CInteger (ex_intro _ false
                             (ex_intro _ VNone (ex_intro _ None eq_refl))))))).
  reflexivity.
Defined.

(** C5 as stated fails: [Place(at: Coordinate(default=(100.0, 0.0)))] allows
    blanks, yet binding None raises the bounds error instead of storing the
    default. *)
Lemma bind_None_default_out_of_bounds :
  construct CCoordinate false far_north None = Ok at_field /\
  field_blank_allowed at_field = true /\
  bind_field [] at_field "at" (blank_row "Place") VNone = Raise BoundsError.
Proof. repeat split. Qed.

(** ** Decomposing and composing *)






(** ** Declaring a table *)

Lemma column_name_ok_nonempty n :
  n <> "" -> exists b, column_name_ok n = Ok b.
Proof. destruct n; [congruence|]. intros _. eexists. reflexivity. Qed.

(** A class body with no empty member name and with a field whose name
    fails the test is rejected with the error of the invalid column name. *)
Lemma collect_field_names_rejects attrs acc n f :
  Forall (fun p => fst p <> "") attrs ->
  In (n, AField f) attrs -> column_name_ok n = Ok false ->
  collect_field_names attrs acc = Raise (ConfigError InvalidColumnName).
Proof.
  intros Hne. revert acc. induction Hne as [|[n' a] attrs Hn' Hne IH];
    intros acc Hin Hbad; [destruct Hin|].
  simpl in *. destruct a as [f'|v].
  - destruct (column_name_ok_nonempty n' Hn') as [b Hb]. rewrite Hb. simpl.
    destruct b; simpl; [|reflexivity].
    destruct Hin as [Heq|Hin]; [|apply IH; assumption].
    injection Heq as -> _. congruence.
  - destruct Hin as [Heq|Hin]; [discriminate|]. apply IH; assumption.
Qed.

(** Reserved names, names whose first character is not a letter and names
    with a character that is not alphanumeric all fail the test. *)
Lemma column_name_ok_false n :
  n <> "" ->
  (In n reserved \/ (exists a r, n = String.String a r /\ isalpha_char a = false) \/
   isalnum n = false) ->
  column_name_ok n = Ok false.
Proof.
  intros Hn H. destruct n as [|a r]; [congruence|]. unfold column_name_ok.
  f_equal. destruct H as [H|[(a' & r' & Heq & Ha)|H]].
  - simpl in H. destruct H as [H|[H|[H|[H|[]]]]]; injection H as <- <-; reflexivity.
  - injection Heq as -> ->. rewrite Ha. reflexivity.
  - rewrite H. apply andb_false_iff. left. apply andb_false_r.
Qed.

Lemma MetaTable_init_taken table_names n attrs :
  n ∈ table_names ->
  MetaTable_init table_names n attrs = Raise (ConfigError TableNameTaken).
Proof.
  intros H. unfold MetaTable_init. rewrite bool_decide_eq_true_2 by exact H.
  reflexivity.
Qed.

Lemma MetaTable_init_registers table_names n attrs t table_names' :
  MetaTable_init table_names n attrs = Ok (t, table_names') ->
  n ∈ table_names' /\ table_names ⊆ table_names'.
Proof.
  unfold MetaTable_init. destruct (bool_decide _); [discriminate|].
  destruct (collect_field_names attrs []); simpl; [|discriminate].
  intros [= <- <-]. set_solver.
Qed.

(** What holds of C7 on the code: a second declaration under a registered
    name is rejected with a ConfigError, and so is a declaration with a
    field whose name is reserved, does not start with a letter or is not
    alphanumeric, as long as no member of the class body has the empty
    name. *)
Lemma declaration_rejects table_names n attrs :
  (n ∈ table_names ->
     MetaTable_init table_names n attrs = Raise (ConfigError TableNameTaken)) /\
  (forall t table_names' attrs',
     MetaTable_init table_names n attrs = Ok (t, table_names') ->
     MetaTable_init table_names' n attrs' = Raise (ConfigError TableNameTaken)) /\
  (n ∉ table_names ->
   Forall (fun p => fst p <> "") attrs ->
   forall col f, In (col, AField f) attrs ->
     (In col reserved \/
      (exists a r, col = String.String a r /\ isalpha_char a = false) \/
      isalnum col = false) ->
     MetaTable_init table_names n attrs = Raise (ConfigError InvalidColumnName)).
Proof.
  repeat split.
  - apply MetaTable_init_taken.
  - intros t names' attrs' H. apply MetaTable_init_taken.
    apply MetaTable_init_registers in H. tauto.
  - intros Hn Hne col f Hin Hbad. unfold MetaTable_init.
    rewrite bool_decide_eq_false_2 by exact Hn.
    rewrite (collect_field_names_rejects attrs [] col f); try assumption.
    + reflexivity.
    + apply column_name_ok_false; [|exact Hbad].
      rewrite Forall_forall in Hne.
      apply (Hne (col, AField f)). apply list_elem_of_In. exact Hin.
Qed.

(** C7 on a field declared under the empty name, which does not start with
    a letter: the declaration is not rejected with a ConfigError, indexing
    the name raises IndexError first. *)
Theorem declare_empty_column_name :
  MetaTable_init ∅ "Ghost" [("", AField when_field)]
  = Raise (Uncaught IndexError "string index out of range") /\
  py_class (Uncaught IndexError "string index out of range") <>
  py_class (ConfigError InvalidColumnName).
Proof. split; [reflexivity|discriminate]. Qed.

(** ** Translating a criterion *)

Lemma read_criteria_single {db} (w : world db) k v col op :
  split_key k = Ok (col, op) -> live w v ->
  exists val, read_criteria [(k, v)] ("", "", VNone) w = (Ok (col, op, val), w).
Proof.
  intros Hk Hv. unfold read_criteria, bind, lift, ret. rewrite Hk.
  destruct v; try (eexists; reflexivity).
  simpl in Hv. destruct Hv as [row Hrow]. unfold read. rewrite Hrow.
  eexists. reflexivity.
Qed.

Lemma mem_str_comparison op :
  mem_str op ["ne"; "gt"; "lt"; "eq"] = true ->
  mem_str op ["ne"; "gt"; "lt"; "al"; "eq"] = true /\ String.eqb op "al" = false.
Proof.
  unfold mem_str. simpl. rewrite !orb_false_r.
  intros H. apply orb_true_iff in H. destruct H as [H|H];
    [|apply orb_true_iff in H; destruct H as [H|H];
      [|apply orb_true_iff in H; destruct H as [H|H]]];
    apply String.eqb_eq in H; subst op; split; reflexivity.
Qed.

(** C6, as the code has it.  For a single criterion whose key splits into
    a column and an operator: the operator is eq when the key has no
    separator; an operator outside eq, ne, gt, lt and the match-all marker
    al is refused with UnsupportedOperatorError; with one of eq, ne, gt, lt,
    a column that is neither a declared field nor id is refused with
    UnknownFieldError.  Either refusal comes before any call to the Store. *)
Theorem filter_criterion {db : Store} (c : table) (k : string) (v : value)
    (w : world db) (col op : string) :
  split_key k = Ok (col, op) -> live w v ->
  (contains "__" k = false -> col = k /\ op = "eq") /\
  (mem_str op ["ne"; "gt"; "lt"; "al"; "eq"] = false ->
     filter_rows c [(k, v)] w = (Raise UnsupportedOperatorError, w)) /\
  (mem_str op ["ne"; "gt"; "lt"; "eq"] = true ->
   mem_str col (field_names c ++ ["id"]) = false ->
     filter_rows c [(k, v)] w = (Raise UnknownFieldError, w)).
Proof.
  intros Hk Hv. split; [|split].
  - intros Hc. unfold split_key in Hk. rewrite Hc in Hk.
    injection Hk as <- <-. split; reflexivity.
  - intros Hop. destruct (read_criteria_single w k v col op Hk Hv) as [val Hr].
    unfold filter_rows, filter_ids, bind. rewrite Hr. rewrite Hop. reflexivity.
  - intros Hop Hcol. destruct (read_criteria_single w k v col op Hk Hv) as [val Hr].
    apply mem_str_comparison in Hop. destruct Hop as [Hop Hal].
    unfold filter_rows, filter_ids, bind. rewrite Hr. rewrite Hop, Hal, Hcol.
    reflexivity.
Qed.

Lemma filter_criterion_witness :
  filter_rows Person [("age__like", VInt 5)] (empty_world no_probe)
  = (Raise UnsupportedOperatorError, empty_world no_probe) /\
  filter_rows Person [("height", VInt 5)] (empty_world no_probe)
  = (Raise UnknownFieldError, empty_world no_probe).
Proof.
  split.
  - apply (proj1 (proj2 (filter_criterion Person "age__like" (VInt 5)
                           (empty_world no_probe) "age" "like" eq_refl I))).
    reflexivity.
  - apply (proj2 (proj2 (filter_criterion Person "height" (VInt 5)
                           (empty_world no_probe) "height" "eq" eq_refl I)));
      reflexivity.
Defined.

(** C6 as stated fails on the operator al, which is outside eq, ne, gt, lt
    and yet accepted: the criterion age__al=5 is not refused, it runs the
    match-all scan. *)
Lemma filter_accepts_match_all :
  split_key "age__al" = Ok ("age", "al") /\
  filter_rows Person [("age__al", VInt 5)] (empty_world no_probe)
  = (Ok [], @mk_world (memory_store no_probe) [] (mk_memory 1 [])
                      [Scan "Person" AL None]).
Proof. split; reflexivity. Qed.

(** ** Probing on a timestamp *)

(** C2 on the code.  With the timestamp 2020-01-02T03:04:05.000006 as the
    criterion on Event.when, a single scan is issued, on the year column and
    with the whole timestamp as its value, not one scan per slot.  With the
    same instant without a fraction, seven scans are issued in slot order,
    but when the year probe is empty and the month probe is not, the result
    is empty rather than the month probe's rows. *)
Theorem filter_on_timestamp :
  (let '(r, w) := filter_ids Event [("when", VDateTime stamp)] (empty_world no_probe) in
   log w = [Scan "Event" EQ (Some ("when_year", VDateTime stamp))]) /\
  (let '(r, w) := filter_ids Event [("when", VDateTime stamp_whole)]
                    (empty_world year_misses) in
   log w = map (fun cv => Scan "Event" EQ (Some cv))
             [("when_year", VInt 2020); ("when_month", VInt 1); ("when_day", VInt 2);
              ("when_hour", VInt 3); ("when_minute", VInt 4); ("when_second", VInt 5);
              ("when_microsecond", VInt 0)] /\
   year_misses EQ (Some ("when_month", VInt 1)) = [1] /\
   r = Ok []).
Proof. split; vm_compute; repeat split. Qed.

(** ** Deleting a row *)

(** C9.  [delete] on a row of the heap asks the Store to drop the row's
    table name and pk, and nothing else.  When the Store succeeds, the row's
    pk and version become None while its class, its field attributes and its
    flag are as before, and every other object is untouched; when the Store
    fails, its exception propagates and the heap is unchanged. *)
Theorem delete_clears_identity {db : Store} (self : loc) (w : world db)
    (inst : instance) :
  objects w !! self = Some inst ->
  exists r w',
    delete self w = (r, w') /\
    log w' = log w ++ [Drop (cls inst) (pk inst)] /\
    store w' = snd (db_drop db (store w) (cls inst) (pk inst)) /\
    match fst (db_drop db (store w) (cls inst) (pk inst)) with
    | Ok _ =>
        r = Ok tt /\
        (exists inst', objects w' !! self = Some inst' /\
           pk inst' = VNone /\ version inst' = VNone /\
           cls inst' = cls inst /\ attrs inst' = attrs inst /\
           is_reference_lazy_loaded inst' = is_reference_lazy_loaded inst) /\
        (forall l, l <> self -> objects w' !! l = objects w !! l)
    | Raise e => r = Raise e /\ objects w' = objects w
    end.
Proof.
  intros Hs. unfold delete, bind, read, call_drop, write. rewrite Hs.
  destruct (db_drop db (store w) (cls inst) (pk inst)) as [[[]|e] s] eqn:E; simpl.
  - eexists _, _. split; [reflexivity|]. simpl. repeat split.
    + eexists. split.
      * apply list_lookup_insert_eq. eapply lookup_lt_Some. exact Hs.
      * repeat split.
    + intros l Hl. apply list_lookup_insert_ne. congruence.
  - eexists _, _. split; [reflexivity|]. simpl. repeat split.
Qed.

Lemma delete_clears_identity_witness :
  exists r w', delete 0%nat ann_world = (r, w') /\
    log w' = [Drop "Person" (VInt 1)] /\
    exists inst', objects w' !! 0%nat = Some inst' /\
      pk inst' = VNone /\ version inst' = VNone /\ attrs inst' = attrs ann.
Proof.
  destruct (delete_clears_identity 0%nat ann_world ann eq_refl)
    as (r & w' & Hd & Hl & _ & H).
  exists r, w'. split; [exact Hd|]. split; [exact Hl|].
  simpl in H. destruct H as (_ & (inst' & H1 & H2 & H3 & _ & H4 & _) & _).
  exists inst'. repeat split; assumption.
Defined.

(** ** How a computation may change the world *)

Section Frames.

Context {db : Store} (classes : gmap string table).

Lemma bind_inv {A B} (m : M db A) (k : A -> M db B) w r w' :
  bind m k w = (r, w') ->
  (exists a w1, m w = (Ok a, w1) /\ k a w1 = (r, w')) \/
  (exists e, m w = (Raise e, w') /\ r = Raise e).
Proof.
  unfold bind. destruct (m w) as [[a|e] w1]; intros H.
  - left. eauto.
  - right. injection H as <- <-. eauto.
Qed.

Lemma bind_Ok {A B} (m : M db A) (k : A -> M db B) w b w' :
  bind m k w = (Ok b, w') ->
  exists a w1, m w = (Ok a, w1) /\ k a w1 = (Ok b, w').
Proof.
  intros H. apply bind_inv in H. destruct H as [H|(e & _ & H)]; [exact H|discriminate].
Qed.

Lemma row_advances_refl delta i : row_advances db delta i i.
Proof. unfold row_advances. auto. Qed.

Lemma advances_refl (w : world db) : advances w w.
Proof.
  exists []. split; [symmetry; apply app_nil_r|].
  intros l i H. exists i. split; [exact H|apply row_advances_refl].
Qed.

Lemma advances_trans (w1 w2 w3 : world db) :
  advances w1 w2 -> advances w2 w3 -> advances w1 w3.
Proof.
  intros (d1 & L1 & H1) (d2 & L2 & H2). exists (d1 ++ d2). split.
  - rewrite L2, L1. symmetry. apply app_assoc.
  - intros l i Hi. destruct (H1 l i Hi) as (i2 & Hi2 & C1 & A1 & F1 & P1).
    destruct (H2 l i2 Hi2) as (i3 & Hi3 & C2 & A2 & F2 & P2).
    exists i3. split; [exact Hi3|]. repeat split; try congruence.
    destruct P2 as [P2|(N2 & p & vs & P2 & I2 & In2)].
    + destruct P1 as [P1|(N1 & p & vs & P1 & I1 & In1)].
      * left. congruence.
      * right. split; [exact N1|]. exists p, vs.
        repeat split; [congruence|exact I1|]. apply in_or_app. left. exact In1.
    + destruct P1 as [P1|(N1 & p' & vs' & P1 & _)]; [|congruence].
      right. split; [congruence|]. exists p, vs.
      repeat split; [exact P2|exact I2|]. apply in_or_app. right.
      rewrite <- C1. exact In2.
Qed.

Lemma advances_same_objects (w w' : world db) delta :
  objects w' = objects w -> log w' = log w ++ delta -> advances w w'.
Proof.
  intros Ho Hl. exists delta. split; [exact Hl|].
  intros l i H. exists i. rewrite Ho. split; [exact H|apply row_advances_refl].
Qed.

Lemma appends_advances (w w' : world db) extra delta :
  objects w' = objects w ++ extra -> log w' = log w ++ delta -> advances w w'.
Proof.
  intros Ho Hl. exists delta. split; [exact Hl|].
  intros l i H. exists i. rewrite Ho. split; [|apply row_advances_refl].
  apply lookup_app_l_Some. exact H.
Qed.

Lemma preserves_ret {A} (a : A) : preserves (ret (db:=db) a).
Proof. intros w r w' [= <- <-]. apply advances_refl. Qed.

Lemma preserves_raise {A} e : preserves (raise (db:=db) (A:=A) e).
Proof. intros w r w' [= <- <-]. apply advances_refl. Qed.

Lemma preserves_lift {A} (x : result A) : preserves (lift (db:=db) x).
Proof. intros w r w' [= <- <-]. apply advances_refl. Qed.

Lemma preserves_bind {A B} (m : M db A) (k : A -> M db B) :
  preserves m -> (forall a, preserves (k a)) -> preserves (bind m k).
Proof.
  intros Hm Hk w r w' H. apply bind_inv in H.
  destruct H as [(a & w1 & H1 & H2)|(e & H1 & _)].
  - eapply advances_trans; [eapply Hm|eapply Hk]; eassumption.
  - eapply Hm; eassumption.
Qed.

Lemma preserves_for_each {A B} (body : B -> A -> M db B) (l : list A) :
  (forall acc x, preserves (body acc x)) ->
  forall acc, preserves (for_each body l acc).
Proof.
  intros Hb. induction l as [|x l IH]; intros acc; simpl.
  - apply preserves_ret.
  - apply preserves_bind; [apply Hb|]. intros a. apply IH.
Qed.

Lemma preserves_read self : preserves (read (db:=db) self).
Proof.
  intros w r w' H. unfold read in H.
  destruct (objects w !! self); injection H as <- <-; apply advances_refl.
Qed.

Lemma preserves_heap_now : preserves (heap_now (db:=db)).
Proof. intros w r w' [= <- <-]. apply advances_refl. Qed.

Lemma preserves_class_attr c n : preserves (class_attr (db:=db) c n).
Proof.
  unfold class_attr. destruct (assoc n (dict c));
    [apply preserves_ret|apply preserves_raise].
Qed.

Lemma preserves_getattr_default {A} (m : M db A) :
  preserves m -> preserves (getattr_default m).
Proof.
  intros Hm w r w' H. unfold getattr_default in H.
  destruct (m w) as [[a|e] w1] eqn:E.
  - injection H as <- <-. eapply Hm; eassumption.
  - destruct (is_AttributeError e); injection H as <- <-; eapply Hm; eassumption.
Qed.

Lemma preserves_call_get t p : preserves (call_get (db:=db) t p).
Proof.
  intros w r w' H. unfold call_get in H. destruct (db_get _ _ _ _).
  injection H as <- <-. eapply advances_same_objects; reflexivity.
Qed.

Lemma is_None_true v : is_None v = true -> v = VNone.
Proof. destruct v; simpl; congruence. Qed.

(** The end of a save touches the saved row only, and only its identity. *)
Lemma preserves_store_row atomic self vs :
  preserves (store_row (db:=db) atomic self vs).
Proof.
  intros w r w' H. unfold store_row in H. apply bind_inv in H.
  destruct H as [(inst & w1 & Hr & H)|(e & Hr & _)];
    [|eapply preserves_read; eassumption].
  unfold read in Hr. destruct (objects w !! self) as [i|] eqn:Hs; [|discriminate].
  injection Hr as -> <-.
  assert (Hlt : (self < length (objects w))%nat) by (eapply lookup_lt_Some; eassumption).
  destruct (is_None (pk inst)) eqn:Hn.
  - apply is_None_true in Hn. unfold bind, call_insert, write in H.
    destruct (db_insert db (store w) (cls inst) vs) as [[[p v]|e] s] eqn:E;
      injection H as <- <-; [|eapply advances_same_objects; reflexivity].
    exists [Insert (cls inst) vs]. split; [reflexivity|].
    intros l j Hj. simpl. destruct (decide (l = self)) as [->|Hl].
    + rewrite list_lookup_insert_eq by exact Hlt.
      eexists. split; [reflexivity|]. assert (j = inst) as -> by congruence.
      repeat split. right. split; [exact Hn|]. exists p, vs.
      repeat split; [|left; reflexivity]. unfold issued. eauto 10.
    + rewrite list_lookup_insert_ne by congruence.
      exists j. split; [exact Hj|apply row_advances_refl].
  - assert (G : forall ev,
      bind (call_update (cls inst) (pk inst) vs ev)
           (fun v => write self (set_version inst (VInt v))) w = (r, w') ->
      advances w w').
    { intros ev G. unfold bind, call_update, write in G.
      destruct (db_update db (store w) (cls inst) (pk inst) vs ev) as [[v|e] s];
        injection G as <- <-; [|eapply advances_same_objects; reflexivity].
      exists [Update (cls inst) (pk inst) vs ev]. split; [reflexivity|].
      intros l j Hj. simpl. destruct (decide (l = self)) as [->|Hl].
      - rewrite list_lookup_insert_eq by exact Hlt.
        eexists. split; [reflexivity|]. assert (j = inst) as -> by congruence.
        repeat split. left. reflexivity.
      - rewrite list_lookup_insert_ne by congruence.
        exists j. split; [exact Hj|apply row_advances_refl]. }
    destruct atomic; eapply G; exact H.
Qed.

End Frames.

(** ** Fetching a row only adds to the heap *)

Section Fetching.

Context {db : Store} (classes : gmap string table).

Lemma insert_last (h : heap) (i x : instance) :
  <[length h:=x]> (h ++ [i]) = h ++ [x].
Proof.
  rewrite insert_app_r_alt by lia. rewrite Nat.sub_diag. reflexivity.
Qed.

Lemma setattr_on_last c (h : heap) i n v (w : world db) r w' :
  objects w = h ++ [i] ->
  setattr_on c (length h) n v w = (r, w') ->
  exists i', objects w' = h ++ [i'] /\ log w' = log w /\ store w' = store w.
Proof.
  intros Ho H. unfold setattr_on, bind, read, heap_now, lift, write in H.
  rewrite Ho in H. rewrite list_lookup_middle in H by reflexivity.
  destruct (assoc n (dict c)) as [[f|o]|].
  - destruct (bind_field _ f n i v); injection H as <- <-; simpl;
      rewrite ?Ho, ?insert_last; eauto.
  - injection H as <- <-. simpl. rewrite ?Ho, ?insert_last. eauto.
  - injection H as <- <-. simpl. rewrite ?Ho, ?insert_last. eauto.
Qed.

Lemma init_loop_last c (h : heap) kwargs names :
  forall i (w : world db) r w',
    objects w = h ++ [i] ->
    for_each (fun _ field_name =>
                setattr_on c (length h) field_name (kwargs_get kwargs field_name))
             names tt w = (r, w') ->
    exists i', objects w' = h ++ [i'] /\ log w' = log w /\ store w' = store w.
Proof.
  induction names as [|n names IH]; intros i w r w' Ho H; simpl in H.
  - injection H as <- <-. eauto.
  - apply bind_inv in H. destruct H as [(a & w1 & H1 & H2)|(e & H1 & _)].
    + destruct a.
      destruct (setattr_on_last _ _ _ _ _ _ _ _ Ho H1) as (i1 & Ho1 & L1 & S1).
      destruct (IH _ _ _ _ Ho1 H2) as (i2 & Ho2 & L2 & S2).
      exists i2. repeat split; congruence.
    + eapply setattr_on_last; eassumption.
Qed.

Lemma Table_init_last c kwargs (w : world db) r w' :
  Table_init c kwargs w = (r, w') ->
  exists i', objects w' = objects w ++ [i'] /\ log w' = log w /\
    store w' = store w /\ forall l, r = Ok l -> l = length (objects w).
Proof.
  intros H. unfold Table_init in H. apply bind_inv in H.
  destruct H as [(self & w1 & H1 & H2)|(e & H1 & _)]; [|discriminate].
  unfold alloc in H1. injection H1 as <- <-.
  apply bind_inv in H2. destruct H2 as [(a & w2 & H2 & H3)|(e & H2 & ->)].
  - eapply init_loop_last in H2; [|reflexivity].
    destruct H2 as (i' & Ho & L & S). injection H3 as <- <-.
    exists i'. repeat split; try assumption. congruence.
  - eapply init_loop_last in H2; [|reflexivity].
    destruct H2 as (i' & Ho & L & S). exists i'. repeat split; try assumption.
    discriminate.
Qed.

Lemma compose_fields_pure c names :
  forall it acc (w : world db) r w',
    compose_fields c names it acc w = (r, w') -> w' = w.
Proof.
  induction names as [|n names IH]; intros it acc w r w' H; simpl in H.
  - injection H as _ <-. reflexivity.
  - unfold bind, class_attr in H. destruct (assoc n (dict c)) as [[f|o]|];
      try (injection H as _ <-; reflexivity).
    simpl in H. unfold lift in H.
    destruct (get_field_assignable_obj_from_stream f it);
      [eapply IH; exact H|injection H as _ <-; reflexivity].
Qed.

Lemma appends_MetaTable_get c p : appends (MetaTable_get (db:=db) c p).
Proof.
  intros w r w' H. unfold MetaTable_get in H. apply bind_inv in H.
  destruct H as [(fetched & w1 & H1 & H)|(e & H1 & _)].
  2:{ unfold call_get in H1. destruct (db_get _ _ _ _). injection H1 as _ <-.
      exists [], [Get (class_name c) p]. simpl. rewrite app_nil_r. auto. }
  assert (Ho1 : objects w1 = objects w /\ log w1 = log w ++ [Get (class_name c) p]).
  { unfold call_get in H1. destruct (db_get _ _ _ _). injection H1 as _ <-. auto. }
  destruct Ho1 as [Ho1 Hl1].
  apply bind_inv in H. destruct H as [(vals & w2 & H2 & H)|(e & H2 & _)].
  2:{ apply compose_fields_pure in H2. subst w'.
      exists [], [Get (class_name c) p]. rewrite app_nil_r. auto. }
  apply compose_fields_pure in H2. subst w2.
  apply bind_inv in H. destruct H as [(o & w3 & H3 & H)|(e & H3 & _)].
  2:{ apply Table_init_last in H3. destruct H3 as (i' & Ho & L & _).
      exists [i'], [Get (class_name c) p]. split; congruence. }
  apply Table_init_last in H3. destruct H3 as (i' & Ho & L & _ & Hl).
  specialize (Hl o eq_refl). subst o.
  unfold bind, read, write, ret in H. rewrite Ho in H.
  rewrite list_lookup_middle in H by reflexivity. injection H as _ <-. simpl.
  rewrite Ho, insert_last, Ho1. eexists [_], [Get (class_name c) p].
  split; [reflexivity|congruence].
Qed.

Lemma preserves_appends {A} (m : M db A) : appends m -> preserves m.
Proof.
  intros Hm w r w' H. destruct (Hm w r w' H) as (extra & delta & Ho & Hl).
  eapply appends_advances; eassumption.
Qed.

Lemma preserves_Foreign_get t n self :
  preserves (Foreign_get (db:=db) classes t n self).
Proof.
  unfold Foreign_get. apply preserves_bind; [apply preserves_read|]. intros inst.
  apply preserves_bind; [apply preserves_lift|]. intros v.
  destruct (is_None v); [apply preserves_ret|].
  destruct (is_reference_lazy_loaded inst) as [[]|];
    [|apply preserves_ret|apply preserves_raise].
  destruct (classes !! t); [|apply preserves_raise].
  apply preserves_bind; [apply preserves_appends, appends_MetaTable_get|].
  intros l. apply preserves_ret.
Qed.

End Fetching.

(** ** Saving *)

Section Saving.

Context {db : Store} (classes : gmap string table).

Lemma preserves_cascade S c t n self :
  (forall l, preserves (S l)) ->
  preserves (cascade (db:=db) classes S c t n self).
Proof.
  intros HS. unfold cascade.
  apply preserves_bind;
    [apply preserves_getattr_default, preserves_Foreign_get|].
  intros [v|].
  - destruct v; try apply preserves_raise.
    apply preserves_bind; [apply preserves_read|]. intros row.
    destruct (is_None (pk row)); [apply HS|apply preserves_ret].
  - destruct (assoc "pk" (dict c)) as [[f|v]|]; try apply preserves_raise.
    destruct (is_None v); [apply preserves_raise|apply preserves_ret].
Qed.

Lemma preserves_save_field S c self acc n :
  (forall l, preserves (S l)) ->
  preserves (save_field (db:=db) classes S c self acc n).
Proof.
  intros HS. unfold save_field.
  apply preserves_bind; [apply preserves_class_attr|]. intros [f|v];
    [|apply preserves_raise].
  apply preserves_bind.
  - destruct f; try apply preserves_ret. apply preserves_cascade. exact HS.
  - intros _. apply preserves_bind; [apply preserves_read|]. intros inst.
    apply preserves_bind; [apply preserves_heap_now|]. intros h.
    apply preserves_bind; [apply preserves_lift|]. intros vs.
    apply preserves_ret.
Qed.

Lemma preserves_class_of self : preserves (class_of (db:=db) classes self).
Proof.
  unfold class_of. apply preserves_bind; [apply preserves_read|]. intros inst.
  destruct (classes !! cls inst); [apply preserves_ret|apply preserves_raise].
Qed.

Lemma preserves_collect_values S self :
  (forall l, preserves (S l)) ->
  preserves (collect_values (db:=db) classes S self).
Proof.
  intros HS. unfold collect_values.
  apply preserves_bind; [apply preserves_class_of|]. intros c.
  apply preserves_for_each. intros acc n. apply preserves_save_field. exact HS.
Qed.

Lemma preserves_save depth :
  forall atomic self, preserves (save (db:=db) classes depth atomic self).
Proof.
  induction depth as [|d IH]; intros atomic self; simpl.
  - apply preserves_raise.
  - apply preserves_bind.
    + apply preserves_collect_values. intros l. apply IH.
    + intros vs. apply preserves_store_row.
Qed.



(** *** A reference left unset *)

Lemma cascade_unset S c t f self (w : world db) inst :
  objects w !! self = Some inst ->
  attrs inst !! attr_name f = Some VNone ->
  cascade classes S c t f self w
  = (Raise (Uncaught AttributeError "object has no attribute pk"), w).
Proof.
  intros Hs Ha. unfold cascade, bind, getattr_default, Foreign_get, bind, read, lift.
  rewrite Hs. unfold getattr. rewrite Ha. reflexivity.
Qed.

Lemma save_field_unset S c t blank f self acc (w : world db) inst :
  assoc f (dict c) = Some (AField (Foreign t blank)) ->
  objects w !! self = Some inst ->
  attrs inst !! attr_name f = Some VNone ->
  save_field classes S c self acc f w
  = (Raise (Uncaught AttributeError "object has no attribute pk"), w).
Proof.
  intros Hf Hs Ha. unfold save_field, bind, class_attr. rewrite Hf.
  unfold ret at 1. erewrite cascade_unset by eassumption. reflexivity.
Qed.

Lemma save_field_plain S c self acc n (w : world db) inst :
  objects w !! self = Some inst ->
  plain_field c (objects w) inst n ->
  exists vs, save_field classes S c self acc n w = (Ok (acc ++ vs), w).
Proof.
  intros Hs (f & vs & Hf & Hp & Hd). exists vs.
  unfold save_field, bind, class_attr. rewrite Hf. unfold ret at 1.
  destruct f; try discriminate; unfold ret at 1; unfold read; rewrite Hs;
    unfold heap_now, lift; rewrite Hd; reflexivity.
Qed.

Lemma loop_plain S c self names :
  forall acc (w : world db) inst,
    objects w !! self = Some inst ->
    Forall (plain_field c (objects w) inst) names ->
    exists vs, for_each (save_field classes S c self) names acc w = (Ok vs, w).
Proof.
  induction names as [|n names IH]; intros acc w inst Hs Hp; simpl.
  - eexists. reflexivity.
  - inversion Hp as [|? ? Hn Hp']; subst.
    destruct (save_field_plain S c self acc n w inst Hs Hn) as [vs E].
    unfold bind. rewrite E. eapply IH; eassumption.
Qed.

Lemma loop_unset S c t blank f self names :
  (forall l, preserves (S l)) ->
  assoc f (dict c) = Some (AField (Foreign t blank)) ->
  forall acc (w : world db) inst,
    In f names ->
    objects w !! self = Some inst ->
    attrs inst !! attr_name f = Some VNone ->
    exists e w', for_each (save_field classes S c self) names acc w = (Raise e, w').
Proof.
  intros HS Hf. induction names as [|n names IH]; intros acc w inst Hin Hs Ha;
    [destruct Hin|].
  simpl. unfold bind.
  destruct (save_field classes S c self acc n w) as [[acc'|e] w1] eqn:E;
    [|eauto].
  destruct Hin as [->|Hin].
  - erewrite save_field_unset in E by eassumption. discriminate.
  - apply preserves_save_field in E; [|exact HS].
    destruct E as (delta & _ & E). destruct (E self inst Hs) as (i' & Hs' & _ & Ha' & _).
    eapply IH; [exact Hin|exact Hs'|]. rewrite Ha'. exact Ha.
Qed.

End Saving.

Lemma for_each_app {db A B} (body : B -> A -> M db B) (l1 l2 : list A) :
  forall acc w,
    for_each body (l1 ++ l2) acc w
    = bind (for_each body l1 acc) (for_each body l2) w.
Proof.
  induction l1 as [|x l1 IH]; intros acc w; simpl.
  - reflexivity.
  - unfold bind. destruct (body acc x w) as [[a|e] w1]; [|reflexivity].
    rewrite IH. reflexivity.
Qed.

(** C10.  When a row's Foreign field holds None, [save] (with room for at
    least one call) never returns: an exception leaves the loop that
    collects the row's values, so the call that would insert or update the
    row is not reached.  If the fields declared before it are no references
    and decompose, that exception is the AttributeError of reading [pk] off
    None, and nothing at all was sent to the Store. *)
Theorem save_unset_reference {db : Store} (classes : gmap string table)
    (depth : nat) (atomic : bool) (self : loc) (w : world db) (inst : instance)
    (c : table) (pre post : list string) (f t : string) (blank : bool) :
  objects w !! self = Some inst ->
  classes !! cls inst = Some c ->
  field_names c = pre ++ f :: post ->
  assoc f (dict c) = Some (AField (Foreign t blank)) ->
  attrs inst !! attr_name f = Some VNone ->
  (exists e w',
     collect_values classes (save classes depth true) self w = (Raise e, w') /\
     save classes (S depth) atomic self w = (Raise e, w')) /\
  (Forall (plain_field c (objects w) inst) pre ->
     save classes (S depth) atomic self w
     = (Raise (Uncaught AttributeError "object has no attribute pk"), w)).
Proof.
  intros Hs Hc Hn Hf Ha. split.
  - destruct (loop_unset classes (save classes depth true) c t blank f self
                (field_names c) (fun l => preserves_save classes depth true l) Hf
                [] w inst) as (e & w' & E); try assumption.
    { rewrite Hn. apply in_or_app. right. left. reflexivity. }
    exists e, w'.
    assert (G : collect_values classes (save classes depth true) self w = (Raise e, w')).
    { unfold collect_values, bind, class_of, bind, read. rewrite Hs, Hc. exact E. }
    split; [exact G|]. simpl. unfold bind. rewrite G. reflexivity.
  - intros Hp. simpl. unfold bind, collect_values, bind, class_of, bind, read.
    rewrite Hs, Hc. unfold ret at 1. rewrite Hn, for_each_app. unfold bind at 1.
    destruct (loop_plain classes (save classes depth true) c self pre [] w inst Hs Hp)
      as [vs E].
    rewrite E. simpl. unfold bind at 1.
    erewrite save_field_unset by eassumption. reflexivity.
Qed.

Lemma save_unset_reference_witness :
  save library 3 true 0%nat orphan_world
  = (Raise (Uncaught AttributeError "object has no attribute pk"), orphan_world).
Proof.
  apply (proj2 (save_unset_reference library 2 true 0%nat orphan_world orphan_book
                  Book ["title"] [] "author" "Author" true
                  eq_refl eq_refl eq_refl eq_refl eq_refl)).
  constructor; [|constructor].
  exists (String_ (mk_cfg false (VStr "") None)), [VStr "T"].
  repeat split.
Defined.

(** ** The flat list of a save *)

Section FlatList.

Context {db : Store} (classes : gmap string table).



Lemma Foreign_get_eager t n self (w : world db) inst l :
  objects w !! self = Some inst ->
  attrs inst !! attr_name n = Some (VObj l) ->
  is_reference_lazy_loaded inst = Some false ->
  Foreign_get classes t n self w = (Ok (VObj l), w).
Proof.
  intros Hs Ha Hl. unfold Foreign_get, bind, read, lift. rewrite Hs.
  unfold getattr. rewrite Ha. simpl. rewrite Hl. reflexivity.
Qed.





End FlatList.

Section Writing.

Context {db : Store} (classes : gmap string table).




End Writing.


(** ** A nested row saved first *)

Section Nested.

Context {db : Store} (classes : gmap string table).

Lemma decomposed_length h f n inst vs :
  get_decomposed_values h f n inst = Ok vs ->
  length vs = length (get_schema_repr_py f n).
Proof.
  destruct f as [c|c|c|t b|c|c]; simpl;
    unfold Field_get, Coordinate_get, DateTime_get_decomposed_values,
      Foreign_get_decomposed_values;
    repeat match goal with
      | |- context [getattr ?i ?k] => destruct (getattr i k); simpl; try discriminate
      end;
    try (intros [= <-]; reflexivity).
  destruct (is_None _); [intros [= <-]; reflexivity|].
  destruct (is_reference_lazy_loaded inst) as [[]|]; try discriminate;
    [intros [= <-]; reflexivity|].
  destruct a; try discriminate. destruct (h !! l); [|discriminate].
  intros [= <-]. reflexivity.
Qed.





End Nested.


(** ** A timestamp criterion, in general

    What the printed form of a timestamp splits into, and from there what
    [filter] asks of the Store for any timestamp. *)
Lemma append_cons x (s t : string) :
  String.String x s +:+ t = String.String x (s +:+ t).
Proof. reflexivity. Qed.

Lemma append_nil_l (t : string) : "" +:+ t = t.
Proof. reflexivity. Qed.

Lemma append_nil_r (s : string) : s +:+ "" = s.
Proof.
  induction s as [|a s IH]; [reflexivity|]. rewrite append_cons, IH. reflexivity.
Qed.

Lemma append_assoc (a b c : string) : (a +:+ b) +:+ c = a +:+ (b +:+ c).
Proof.
  induction a as [|x a IH]; [reflexivity|]. rewrite !append_cons, IH. reflexivity.
Qed.

Lemma prefix_sep c a r : String.prefix (sep c) (String.String a r) = Ascii.eqb a c.
Proof.
  unfold sep. simpl. destruct (ascii_dec c a) as [->|Hne].
  - rewrite Ascii.eqb_refl. destruct r; reflexivity.
  - symmetry. apply Ascii.eqb_neq. congruence.
Qed.

Lemma split_cut c a : forall rest cur,
  lacks c a = true ->
  split_scan (sep c) O (a +:+ String.String c rest) cur
  = (cur +:+ a) :: split_scan (sep c) O rest "".
Proof.
  induction a as [|x a IH]; intros rest cur H.
  - rewrite append_nil_l. cbn [split_scan]. rewrite prefix_sep, Ascii.eqb_refl.
    rewrite append_nil_r. reflexivity.
  - cbn [lacks all_chars] in H. apply andb_true_iff in H. destruct H as [Hx Ha].
    rewrite append_cons. cbn [split_scan]. rewrite prefix_sep.
    apply negb_true_iff in Hx. rewrite Hx. rewrite IH by exact Ha.
    rewrite append_assoc. reflexivity.
Qed.

Lemma split_last c a : forall cur,
  lacks c a = true -> split_scan (sep c) O a cur = [cur +:+ a].
Proof.
  induction a as [|x a IH]; intros cur H.
  - cbn [split_scan]. rewrite append_nil_r. reflexivity.
  - cbn [lacks all_chars] in H. apply andb_true_iff in H. destruct H as [Hx Ha].
    cbn [split_scan]. rewrite prefix_sep.
    apply negb_true_iff in Hx. rewrite Hx. rewrite IH by exact Ha.
    rewrite append_assoc. reflexivity.
Qed.


Lemma lacks_app c a b : lacks c (a +:+ b) = lacks c a && lacks c b.
Proof.
  induction a as [|x a IH]; [reflexivity|].
  rewrite append_cons. unfold lacks in *. cbn [all_chars]. rewrite IH.
  apply andb_assoc.
Qed.

Lemma digit_cases r : 0 <= r < 10 ->
  isdigit_char (digit r) = true /\ Z.of_N (N_of_ascii (digit r)) - 48 = r.
Proof.
  intros H.
  assert (r = 0 \/ r = 1 \/ r = 2 \/ r = 3 \/ r = 4 \/ r = 5 \/ r = 6 \/ r = 7 \/
          r = 8 \/ r = 9) as C by lia.
  repeat (destruct C as [->|C]; [split; reflexivity|]). subst. split; reflexivity.
Qed.

Lemma zero_padded_acc w : forall n acc,
  zero_padded w n acc = zero_padded w n "" +:+ acc.
Proof.
  induction w as [|w IH]; intros n acc; cbn [zero_padded]; [reflexivity|].
  rewrite IH. rewrite (IH _ (String.String _ "")). rewrite append_assoc. reflexivity.
Qed.

Lemma digits_zero_padded w : forall n acc,
  all_chars isdigit_char (zero_padded w n acc) = all_chars isdigit_char acc.
Proof.
  induction w as [|w IH]; intros n acc; simpl; [reflexivity|].
  rewrite IH. simpl.
  destruct (digit_cases (n mod 10)) as [H _]; [apply Z.mod_pos_bound; lia|].
  unfold digit in H. rewrite H. reflexivity.
Qed.

Lemma lacks_digits c s :
  isdigit_char c = false -> all_chars isdigit_char s = true -> lacks c s = true.
Proof.
  intros Hc. induction s as [|x s IH]; simpl; [reflexivity|].
  intros H. apply andb_true_iff in H. destruct H as [Hx Hs].
  unfold lacks. simpl. apply andb_true_iff. split; [|apply IH; exact Hs].
  apply negb_true_iff. apply Ascii.eqb_neq. intros ->. congruence.
Qed.

Lemma lacks_zero_padded c w n :
  isdigit_char c = false -> lacks c (zero_padded w n "") = true.
Proof.
  intros Hc. apply lacks_digits; [exact Hc|]. apply digits_zero_padded.
Qed.


Lemma lacks_cons c x s : lacks c (String.String x s) = negb (Ascii.eqb x c) && lacks c s.
Proof. reflexivity. Qed.

Ltac solve_lacks :=
  repeat first
    [ rewrite lacks_app
    | rewrite lacks_cons
    | rewrite lacks_zero_padded by reflexivity ];
  reflexivity.






Lemma split_space (a b : string) :
  lacks " " a = true -> lacks " " b = true ->
  split " " (a +:+ String.String " " b) = [a; b].
Proof.
  intros Ha Hb. unfold split. change " " with (sep " ").
  rewrite split_cut by exact Ha. rewrite split_last by exact Hb. reflexivity.
Qed.









Section Dated.
Context {db : Store}.






End Dated.

(** ** Scenarios *)

(** Person(name: String, age: Integer(default=0)) built with only a name:
    age reads 0; the first save inserts and leaves pk 1, version 1; delete
    then clears both. *)
Example person_lifecycle :
  let created := Table_init Person {["name":=VStr "Ann"]} (empty_world no_probe) in
  let saved := save library 1 true 0%nat (snd created) in
  let deleted := delete 0%nat (snd saved) in
  fst created = Ok 0%nat /\
  (exists i, objects (snd created) !! 0%nat = Some i /\
             Field_get "age" i = Ok (VInt 0)) /\
  fst saved = Ok tt /\
  (exists i, objects (snd saved) !! 0%nat = Some i /\
             pk i = VInt 1 /\ version i = VInt 1) /\
  fst deleted = Ok tt /\
  (exists i, objects (snd deleted) !! 0%nat = Some i /\
             pk i = VNone /\ version i = VNone) /\
  log (snd deleted)
  = [Insert "Person" [VStr "Ann"; VInt 0]; Drop "Person" (VInt 1)].
Proof.
  cbv zeta. split; [reflexivity|]. split; [eexists; split; reflexivity|].
  split; [reflexivity|]. split; [eexists; repeat split; reflexivity|].
  split; [reflexivity|]. split; [eexists; repeat split; reflexivity|].
  reflexivity.
Qed.

(** A Coordinate bound to (91.0, 0.0) fails on the bound; bound to
    (45.0, 45.0) it decomposes to (45.0, 45.0). *)
Example coordinate_bounds :
  let f := Coordinate (mk_cfg false (VTuple [VInt 0; VInt 0]) None) in
  bind_field [] f "at" (blank_row "Place")
    (VTuple [VFloat (inject_Z 91); VFloat (inject_Z 0)]) = Raise BoundsError /\
  exists i, bind_field [] f "at" (blank_row "Place") north_east = Ok i /\
    get_decomposed_values [] f "at" i
    = Ok [VFloat (inject_Z 45); VFloat (inject_Z 45)].
Proof. cbv zeta. split; [reflexivity|]. eexists. split; reflexivity. Qed.

(** * Beyond the claims

    ** Constructing a field and binding a value, case by case *)

Lemma Field_init_Ok blank d chs bt args c :
  bt <> function ->
  Field_init blank d chs (Some bt) args = Ok c ->
  blank_allowed c = blank || negb (is_None d) /\ choices c = chs /\
  match d with
  | VNone => base_type_call bt args = Ok (default c)
  | VCallable r => default c = r /\ type_of r = bt
  | _ => default c = d /\ type_of d = bt
  end /\
  (forall cs, chs = Some cs ->
     forallb (fun choice => pytype_eqb (type_of choice) bt) cs = true) /\
  (blank_allowed c = true -> not_a_choice c (default c) = false).
Proof.
  intros Hbt H. pose proof (Field_init_inv _ _ _ _ _ _ H) as [Hch _].
  unfold Field_init in H.
  match type of H with
  | rbind ?x _ = _ => destruct x as [v|e] eqn:E; simpl in H; [|discriminate]
  end.
  destruct (check_choices _ chs) eqn:Hc; simpl in H; [|discriminate].
  destruct (check_default_is_choice _ v chs); simpl in H; [|discriminate].
  injection H as <-. simpl in *. repeat split; try assumption.
  - destruct d as [| | | | | | |r]; [exact E|..]; cbn [is_None] in E;
      match type of E with
      | context [pytype_eqb (type_of ?x) bt] =>
          destruct (pytype_eqb (type_of x) bt) eqn:Ht
      end;
      try (injection E as <-; split; [reflexivity|apply pytype_eqb_eq; exact Ht]);
      try discriminate E.
    + apply pytype_eqb_eq in Ht. simpl in Ht. congruence.
    + destruct (pytype_eqb (type_of r) bt) eqn:Hr; [|discriminate].
      injection E as <-. split; [reflexivity|apply pytype_eqb_eq; exact Hr].
  - intros cs ->. unfold check_choices in Hc.
    destruct (forallb _ cs); [reflexivity|discriminate].
Qed.

Lemma construct_inv k blank d chs f :
  construct k blank d chs = Ok f ->
  exists c, f = field_of k c /\ choices c = chs /\
    blank_allowed c = blank || negb (is_None d) /\
    match d with
    | VNone => default c = zero_value k
    | VCallable r => default c = r /\ accepts k r = true
    | _ => default c = d /\ accepts k d = true
    end /\
    (forall cs, chs = Some cs -> forallb (accepts k) cs = true) /\
    (blank_allowed c = true -> not_a_choice c (default c) = false).
Proof.
  intros H. destruct k; simpl in H;
    unfold Integer_init, Float_init, String_init, DateTime_init in H.
  1-4: match type of H with
       | rbind ?x _ = _ => destruct x as [c|e] eqn:E; simpl in H; [|discriminate]
       end; injection H as <-; exists c; split; [reflexivity|];
       apply Field_init_Ok in E; [|discriminate];
       destruct E as (Hb & Hc & Hd & Hch & Hdc);
       repeat (split; [assumption|]);
       (split; [|split; [exact Hch|exact Hdc]]);
       destruct d; cbn [accepts zero_value];
       [ match type of Hd with
         | ?l = _ => let v := eval vm_compute in l in change l with v in Hd
         end; injection Hd as <-; reflexivity
       | destruct Hd as [Hd1 Hd2]; split; [exact Hd1|rewrite Hd2; reflexivity] .. ].
  unfold Coordinate_init in H.
  match type of H with
  | rbind ?x _ = _ => destruct x as [v|e] eqn:E; simpl in H; [|discriminate]
  end.
  destruct (check_choices is_float_pair chs) eqn:Hc; simpl in H; [|discriminate].
  destruct (check_default_is_choice _ v chs) eqn:Hdc; simpl in H; [|discriminate].
  injection H as <-. eexists. split; [reflexivity|]. simpl.
  split; [reflexivity|]. split; [reflexivity|]. split; [|split].
  - destruct d as [| | | | |vs| |r]; cbn [is_None] in E;
      try (simpl in E; discriminate E).
    + injection E as <-. reflexivity.
    + destruct (is_float_pair (VTuple vs)) eqn:Hp; [|discriminate].
      injection E as <-. split; reflexivity.
    + simpl in E. destruct (is_float_pair r) eqn:Hp; [|discriminate].
      injection E as <-. split; [reflexivity|assumption || reflexivity].
  - intros cs ->. unfold check_choices in Hc.
    destruct (forallb _ cs); [reflexivity|discriminate].
  - intros Hb. unfold not_a_choice, check_default_is_choice in *. simpl.
    destruct chs as [cs|]; [|reflexivity]. rewrite Hb in Hdc. simpl in Hdc.
    destruct (py_in v cs); [reflexivity|discriminate].
Qed.








Lemma Field_init_choices blank d chs bt args v :
  (if is_None d then base_type_call bt args
   else if pytype_eqb (type_of d) bt then Ok d
   else match d with
        | VCallable field_default =>
            if pytype_eqb (type_of field_default) bt then Ok field_default
            else Raise (ConfigError WrongDefaultCallable)
        | _ => Raise (ConfigError WrongDefault)
        end) = Ok v ->
  Field_init blank d chs (Some bt) args =
    match chs with
    | Some cs =>
        if negb (forallb (fun choice => pytype_eqb (type_of choice) bt) cs)
        then Raise (ConfigError WrongChoice)
        else if (blank || negb (is_None d)) && negb (py_in v cs)
        then Raise (ConfigError DefaultNotAChoice)
        else Ok (mk_cfg (blank || negb (is_None d)) v chs)
    | None => Ok (mk_cfg (blank || negb (is_None d)) v chs)
    end.
Proof.
  intros E. unfold Field_init. rewrite E. simpl.
  destruct chs as [cs|]; simpl; [|reflexivity].
  destruct (forallb _ cs); simpl; [|reflexivity].
  destruct (_ && _); reflexivity.
Qed.

Lemma construct_resolved k blank d chs v :
  resolved k d = Some v ->
  construct k blank d chs =
    match chs with
    | Some cs =>
        if negb (forallb (accepts k) cs) then Raise (ConfigError WrongChoice)
        else if (blank || negb (is_None d)) && negb (py_in v cs)
        then Raise (ConfigError DefaultNotAChoice)
        else Ok (field_of k (mk_cfg (blank || negb (is_None d)) v chs))
    | None => Ok (field_of k (mk_cfg (blank || negb (is_None d)) v chs))
    end.
Proof.
  intros Hr. destruct k; cbn [construct];
    unfold Integer_init, Float_init, String_init, DateTime_init.
  1-4: rewrite (Field_init_choices _ _ _ _ _ v);
       [destruct chs as [cs|]; [|reflexivity];
        cbn [accepts]; destruct (forallb _ cs); [|reflexivity];
        cbn [negb]; destruct (_ && _); reflexivity|];
       destruct d as [| | | | | | |r]; cbn [resolved accepts is_None] in *;
       try (injection Hr as <-; reflexivity);
       try (destruct (pytype_eqb _ _); [injection Hr as <-; reflexivity|discriminate Hr]).
  all: try (simpl; destruct (pytype_eqb (type_of r) _);
            [injection Hr as <-; reflexivity|discriminate Hr]).
  unfold Coordinate_init.
  assert (E : (if is_None d then Ok (VTuple [VInt 0; VInt 0])
               else if is_float_pair d then Ok d
               else match d with
                    | VCallable coord_default =>
                        if is_float_pair coord_default then Ok coord_default
                        else Raise (ConfigError WrongDefaultCallable)
                    | _ => Raise (ConfigError WrongDefault)
                    end) = Ok v).
  { destruct d as [| | | | |vs| |r]; cbn [resolved accepts is_None] in *;
      try (injection Hr as <-; reflexivity); try discriminate Hr.
    - destruct (is_float_pair (VTuple vs)); [injection Hr as <-; reflexivity|discriminate Hr].
    - simpl. destruct (is_float_pair r); [injection Hr as <-; reflexivity|discriminate Hr]. }
  rewrite E. simpl. destruct chs as [cs|]; simpl; [|reflexivity].
  destruct (forallb _ cs); simpl; [|reflexivity].
  destruct (_ && _); reflexivity.
Qed.

Lemma construct_Ok_resolved k blank d chs f :
  construct k blank d chs = Ok f ->
  exists v, resolved k d = Some v /\
    f = field_of k (mk_cfg (blank || negb (is_None d)) v chs) /\
    (forall cs, chs = Some cs ->
       forallb (accepts k) cs = true /\
       (blank || negb (is_None d) = true -> py_in v cs = true)).
Proof.
  intros H. pose proof (construct_inv _ _ _ _ _ H) as (c & _ & _ & _ & Hd & _).
  assert (Hr : resolved k d = Some (default c)).
  { destruct d; cbn [resolved]; [rewrite Hd; reflexivity|..];
      destruct Hd as [<- ->]; reflexivity. }
  exists (default c). split; [exact Hr|].
  rewrite (construct_resolved _ _ _ _ _ Hr) in H.
  destruct chs as [cs|].
  - destruct (forallb (accepts k) cs) eqn:Hc; cbn [negb] in H; [|discriminate].
    destruct (blank || negb (is_None d)) eqn:Hb; cbn [andb] in H.
    + destruct (py_in (default c) cs) eqn:Hin; cbn [negb] in H; [|discriminate].
      injection H as <-. split; [reflexivity|]. intros ? [= <-]. auto.
    + injection H as <-. split; [reflexivity|]. intros ? [= <-].
      split; [exact Hc|discriminate].
  - injection H as <-. split; [reflexivity|]. discriminate.
Qed.

(** X1.  What a field constructor settles: when it returns, the default is
    the zero value of the class if none was given, the value given, or what
    the callable given returns; blanks are allowed if asked for or if a
    default was given; every choice passes the type test of the class; and
    if blanks are allowed, the default is one of the choices.  A choice that
    fails the type test is refused with a ConfigError, and so is a default
    outside the choices when blanks are allowed: a field declared with
    blank=True, no default and choices that leave out the zero value cannot
    be constructed. *)
Theorem constructed_field (k : field_class) (blank : bool) (d : value)
    (chs : option (list value)) :
  (forall f, construct k blank d chs = Ok f ->
     exists v, resolved k d = Some v /\
       f = field_of k (mk_cfg (blank || negb (is_None d)) v chs) /\
       (forall cs, chs = Some cs ->
          forallb (accepts k) cs = true /\
          (blank || negb (is_None d) = true -> py_in v cs = true))) /\
  (forall v cs, resolved k d = Some v -> chs = Some cs ->
     forallb (accepts k) cs = false ->
     construct k blank d chs = Raise (ConfigError WrongChoice)) /\
  (forall v cs, resolved k d = Some v -> chs = Some cs ->
     forallb (accepts k) cs = true ->
     blank || negb (is_None d) = true -> py_in v cs = false ->
     construct k blank d chs = Raise (ConfigError DefaultNotAChoice)).
Proof.
  split; [|split].
  - apply construct_Ok_resolved.
  - intros v cs Hr -> Hc. rewrite (construct_resolved _ _ _ _ _ Hr), Hc. reflexivity.
  - intros v cs Hr -> Hc Hb Hin.
    rewrite (construct_resolved _ _ _ _ _ Hr), Hc, Hb, Hin. reflexivity.
Qed.

Lemma constructed_field_witness :
  construct CInteger true VNone (Some [VInt 1; VInt 2])
  = Raise (ConfigError DefaultNotAChoice).
Proof.
  apply (proj2 (proj2 (constructed_field CInteger true VNone (Some [VInt 1; VInt 2])))
           (VInt 0) [VInt 1; VInt 2]); reflexivity.
Defined.




(** ** The flag shared by the references of a row *)

Lemma attr_name_inj n m : attr_name n = attr_name m -> n = m.
Proof. unfold attr_name. apply append_inj_l. Qed.

Lemma Foreign_set_object h t b name inst l i :
  Foreign_set h t b name inst (VObj l) = Ok i ->
  i = setattr (set_lazy inst false) (attr_name name) (VObj l).
Proof.
  unfold Foreign_set. cbn [is_None].
  destruct (is_row_of h (VObj l) t); simpl; [|discriminate].
  intros [= <-]. reflexivity.
Qed.

Lemma Foreign_set_eager h t b name inst x i :
  is_reference_lazy_loaded inst = Some false ->
  Foreign_set h t b name inst x = Ok i ->
  is_reference_lazy_loaded i = Some false /\ type_of x <> int.
Proof.
  intros Hl. unfold Foreign_set. rewrite Hl.
  destruct (is_None x) eqn:Hn.
  - destruct (negb b); simpl; [discriminate|]. intros [= <-].
    split; [exact Hl|]. destruct x; simpl in *; congruence.
  - destruct (is_row_of h x t) eqn:Hr.
    + simpl. intros [= <-]. split; [reflexivity|].
      destruct x; simpl in *; congruence.
    + rewrite andb_false_r. simpl. discriminate.
Qed.

(** X4.  The flag that tells a reference held as a row object from one held
    as a pk belongs to the row, not to the field.  Once a row object has
    been bound to a Foreign field of a row, the flag says "object" and
    stays so under every later binding of a Foreign field; binding an int
    pk to any Foreign field of that row is then refused with
    TypeMismatchError; and a pk that another Foreign field of the row
    already holds no longer decomposes: reading its slot raises the
    AttributeError of taking [pk] off an int. *)
Theorem reference_flag_is_shared (h : heap) (t : string) (b : bool)
    (name : string) (inst i : instance) (l : loc) :
  Foreign_set h t b name inst (VObj l) = Ok i ->
  is_reference_lazy_loaded i = Some false /\
  (forall h' t' b' name' z,
     Foreign_set h' t' b' name' i (VInt z) = Raise TypeMismatchError) /\
  (forall h' t' b' name' x i',
     Foreign_set h' t' b' name' i x = Ok i' ->
     is_reference_lazy_loaded i' = Some false) /\
  (forall name' z h',
     name' <> name -> attrs inst !! attr_name name' = Some (VInt z) ->
     Foreign_get_decomposed_values h' name' i
     = Raise (Uncaught AttributeError "object has no attribute pk")).
Proof.
  intros H. apply Foreign_set_object in H. subst i.
  split; [reflexivity|]. split; [|split].
  - intros h' t' b' name' z. unfold Foreign_set. reflexivity.
  - intros h' t' b' name' x i' H.
    eapply Foreign_set_eager in H; [tauto|reflexivity].
  - intros name' z h' Hne Ha. unfold Foreign_get_decomposed_values.
    rewrite getattr_setattr_ne by (intros E; apply attr_name_inj in E; congruence).
    unfold getattr. cbn [set_lazy attrs]. rewrite Ha. reflexivity.
Qed.

Lemma reference_flag_is_shared_witness :
  Foreign_set [new_author] "Author" true "editor"
    (setattr (set_lazy (blank_row "Book") false) "_author" (VObj 0%nat)) (VInt 7)
  = Raise TypeMismatchError.
Proof.
  exact (proj1 (proj2 (reference_flag_is_shared [new_author] "Author" true "author"
                         (blank_row "Book") _ 0%nat eq_refl))
           [new_author] "Author" true "editor" 7).
Defined.

(** ** Fields of one row do not overlap *)






Lemma not_stored_ne key name s :
  ~ stored_under key name -> In s suffixes -> attr_name name +:+ s <> key.
Proof. intros H Hs E. apply H. exists s. auto. Qed.

Lemma lookup_setattr_ne i k k' v : k <> k' -> attrs (setattr i k v) !! k' = attrs i !! k'.
Proof. intros H. unfold setattr. simpl. apply lookup_insert_ne. exact H. Qed.

Ltac frame_keys Hk :=
  repeat (rewrite lookup_setattr_ne;
          [|first [ rewrite <- (append_nil_r (attr_name _));
                    apply (not_stored_ne _ _ "" Hk); simpl; tauto
                  | apply (not_stored_ne _ _ _ Hk); simpl; tauto ]]).

(** A binding writes only attributes named after its field, and leaves the
    identity of the row alone. *)
Lemma bind_field_frame h f n inst x i :
  bind_field h f n inst x = Ok i ->
  cls i = cls inst /\ pk i = pk inst /\ version i = version inst /\
  (is_Foreign f = false -> is_reference_lazy_loaded i = is_reference_lazy_loaded inst) /\
  forall key, ~ stored_under key n -> attrs i !! key = attrs inst !! key.
Proof.
  intros H.
  assert (S : forall c bt v j, Field_set c bt n inst v = Ok j ->
              exists w, j = setattr inst (attr_name n) w).
  { intros c bt v j Hj. apply Field_set_Ok in Hj. destruct Hj as (w & -> & _).
    eauto. }
  destruct f as [c|c|c|t b|c|c]; cbn [bind_field] in H.
  - apply S in H. destruct H as [w ->]. repeat split. intros key Hk.
    frame_keys Hk. reflexivity.
  - apply S in H. destruct H as [w ->]. repeat split. intros key Hk.
    frame_keys Hk. reflexivity.
  - apply S in H. destruct H as [w ->]. repeat split. intros key Hk.
    frame_keys Hk. reflexivity.
  - unfold Foreign_set in H.
    match type of H with
    | rbind ?e _ = _ => destruct e as [j|] eqn:E; simpl in H; [|discriminate]
    end.
    injection H as <-.
    assert (cls j = cls inst /\ pk j = pk inst /\ version j = version inst /\
            attrs j = attrs inst) as (C & P & V & A).
    { destruct (is_None x); [destruct (negb b); [discriminate|]; injection E as <-; auto|].
      destruct (is_row_of h x t); [injection E as <-; auto|].
      destruct (_ && _); [injection E as <-; auto|discriminate]. }
    repeat split; try assumption; [discriminate|]. intros key Hk.
    frame_keys Hk. rewrite A. reflexivity.
  - unfold DateTime_set in H.
    destruct (Field_set c datetime_datetime n inst x) as [j|] eqn:E; [|discriminate].
    apply S in E. destruct E as [w ->]. simpl in H. unfold component in H.
    attr_simpl_in H. simpl in H. destruct w; try discriminate H.
    repeat (attr_simpl_in H; simpl in H). injection H as <-.
    repeat split. intros key Hk. frame_keys Hk. reflexivity.
  - unfold Coordinate_set in H.
    repeat match type of H with
           | rbind ?e _ = _ => destruct e; simpl in H; [|discriminate]
           | (if ?e then _ else _) = _ => destruct e; simpl in H; [discriminate|]
           end.
    injection H as <-. repeat split. intros key Hk. frame_keys Hk. reflexivity.
Qed.

Lemma getattr_frame i inst k :
  attrs i !! k = attrs inst !! k -> getattr i k = getattr inst k.
Proof. intros H. unfold getattr. rewrite H. reflexivity. Qed.



(** ** The slots of a field *)

Lemma next_Ok it v rest : next it = Ok (v, rest) -> it = v :: rest.
Proof. destruct it; simpl; [discriminate|]. intros [= <- <-]. reflexivity. Qed.

Lemma compose_consumes f n it v rest :
  get_field_assignable_obj_from_stream f it = Ok (v, rest) ->
  exists used, it = used ++ rest /\ length used = length (get_schema_repr_py f n).
Proof.
  intros H. destruct f; cbn [get_field_assignable_obj_from_stream] in H;
    try (apply next_Ok in H; subst it; exists [v]; split; reflexivity).
  - destruct it as [|y [|mo [|d [|hh [|mi [|s [|us it]]]]]]]; try discriminate H.
    simpl in H. destruct (datetime_new y mo d hh mi s us); [|discriminate].
    injection H as _ <-. exists [y; mo; d; hh; mi; s; us]. split; reflexivity.
  - destruct it as [|la [|lo it]]; try discriminate H.
    injection H as _ <-. exists [la; lo]. split; reflexivity.
Qed.

Lemma compose_short f n it :
  (length it < length (get_schema_repr_py f n))%nat ->
  get_field_assignable_obj_from_stream f it = Raise (Uncaught StopIteration "").
Proof.
  destruct f; cbn [get_field_assignable_obj_from_stream get_schema_repr_py length];
    intros H.
  1-4: destruct it; [reflexivity|simpl in H; lia].
  - destruct it as [|y [|mo [|d [|hh [|mi [|s [|us it]]]]]]]; try reflexivity.
    simpl in H. lia.
  - destruct it as [|la [|lo it]]; try reflexivity. simpl in H. lia.
Qed.

(** X6.  Every field occupies a fixed number of slots of the flat layout,
    the number of columns its schema lists: one, seven for a DateTime, two
    for a Coordinate.  Decomposing the field of a row yields that many
    values; composing takes exactly that many off the front of the cursor
    and leaves the rest for the next field; and a cursor that holds fewer
    makes composing raise StopIteration. *)
Theorem slots_line_up (f : Field) (n : string) :
  (forall h inst vs, get_decomposed_values h f n inst = Ok vs ->
     length vs = length (get_schema_repr_py f n)) /\
  (forall it v rest, get_field_assignable_obj_from_stream f it = Ok (v, rest) ->
     exists used, it = used ++ rest /\
       length used = length (get_schema_repr_py f n)) /\
  (forall it, (length it < length (get_schema_repr_py f n))%nat ->
     get_field_assignable_obj_from_stream f it = Raise (Uncaught StopIteration "")) /\
  length (get_schema_repr_py f n)
  = match f with DateTime _ => 7 | Coordinate _ => 2 | _ => 1 end%nat.
Proof.
  split; [|split; [|split]].
  - intros h inst vs. apply decomposed_length.
  - intros it v rest. apply compose_consumes.
  - intros it. apply compose_short.
  - destruct f; reflexivity.
Qed.

Lemma slots_line_up_witness :
  get_field_assignable_obj_from_stream when_field [VInt 2020; VInt 1; VInt 2]
  = Raise (Uncaught StopIteration "").
Proof.
  apply (proj1 (proj2 (proj2 (slots_line_up when_field "when")))). simpl. lia.
Defined.

(** ** Declaring a table, when it goes through *)








(** ** Building a row *)

Section Building.

Context {db : Store}.

Lemma world_eta (w : world db) : mk_world (objects w) (store w) (log w) = w.
Proof. destruct w; reflexivity. Qed.

Lemma setattr_on_end c (h : heap) inst n v s lg :
  setattr_on c (length h) n v (@mk_world db (h ++ [inst]) s lg) =
  match match assoc n (dict c) with
        | Some (AField f) => bind_field (h ++ [inst]) f n inst v
        | _ => Ok (setattr inst n v)
        end with
  | Ok i => (Ok tt, mk_world (h ++ [i]) s lg)
  | Raise e => (Raise e, mk_world (h ++ [inst]) s lg)
  end.
Proof.
  unfold setattr_on, bind, read, heap_now, lift, write. cbn [objects store log].
  rewrite list_lookup_middle by reflexivity.
  destruct (assoc n (dict c)) as [[f|o]|]; cbn [objects store log];
    rewrite ?insert_last; try reflexivity.
  destruct (bind_field _ f n inst v); cbn [objects store log];
    rewrite ?insert_last; reflexivity.
Qed.

Lemma for_each_ext {A B} (body body' : B -> A -> M db B) (l : list A) :
  (forall x acc w, In x l -> body acc x w = body' acc x w) ->
  forall acc w, for_each body l acc w = for_each body' l acc w.
Proof.
  induction l as [|x l IH]; intros H acc w; [reflexivity|]. cbn [for_each].
  unfold bind. rewrite (H x acc w) by (left; reflexivity).
  destruct (body' acc x w) as [[a|e] w1]; [|reflexivity].
  apply IH. intros y acc' w' Hy. apply H. right. exact Hy.
Qed.

Lemma init_loop_bind_all c kwargs (h : heap) names : forall inst s lg,
  exists last,
    for_each (fun _ field_name =>
                setattr_on c (length h) field_name (kwargs_get kwargs field_name))
             names tt (@mk_world db (h ++ [inst]) s lg)
    = (match bind_all h c names kwargs inst with
       | Ok _ => Ok tt
       | Raise e => Raise e
       end, mk_world (h ++ [last]) s lg) /\
    forall i, bind_all h c names kwargs inst = Ok i -> last = i.
Proof.
  induction names as [|n names IH]; intros inst s lg.
  - exists inst. split; [reflexivity|]. intros i [= <-]. reflexivity.
  - cbn [for_each bind_all]. unfold bind at 1. rewrite setattr_on_end.
    destruct (match assoc n (dict c) with
              | Some (AField f) => bind_field (h ++ [inst]) f n inst (kwargs_get kwargs n)
              | _ => Ok (setattr inst n (kwargs_get kwargs n))
              end) as [i1|e]; cbn [rbind].
    + apply IH.
    + exists inst. split; [reflexivity|]. discriminate.
Qed.

Lemma Table_init_bind_all c kwargs (w : world db) :
  exists last,
    Table_init c kwargs w
    = (match bind_all (objects w) c (field_names c) kwargs
               (mk_instance (class_name c) VNone VNone None ∅) with
       | Ok _ => Ok (length (objects w))
       | Raise e => Raise e
       end, mk_world (objects w ++ [last]) (store w) (log w)) /\
    forall i, bind_all (objects w) c (field_names c) kwargs
                (mk_instance (class_name c) VNone VNone None ∅) = Ok i -> last = i.
Proof.
  unfold Table_init, bind at 1, alloc.
  destruct (init_loop_bind_all c kwargs (objects w) (field_names c)
              (mk_instance (class_name c) VNone VNone None ∅) (store w) (log w))
    as (last & E & Hlast).
  exists last. split; [|exact Hlast]. unfold bind. rewrite E.
  destruct (bind_all _ _ _ _ _); reflexivity.
Qed.

End Building.

Lemma bind_all_identity h c kwargs names : forall inst i,
  bind_all h c names kwargs inst = Ok i ->
  cls i = cls inst /\ pk i = pk inst /\ version i = version inst.
Proof.
  induction names as [|n names IH]; intros inst i H; cbn [bind_all] in H.
  - injection H as <-. auto.
  - destruct (assoc n (dict c)) as [[f|o]|] eqn:Hn; cbn [rbind] in H.
    + destruct (bind_field _ f n inst _) as [i1|] eqn:E; [|discriminate].
      cbn [rbind] in H. apply IH in H. apply bind_field_frame in E.
      destruct H as (?&?&?), E as (?&?&?&_). repeat split; congruence.
    + apply IH in H. exact H.
    + apply IH in H. exact H.
Qed.

Lemma bind_None_required h f n inst :
  field_blank_allowed f = false -> bind_field h f n inst VNone = Raise MissingValueError.
Proof.
  intros Hb. destruct f; simpl in *;
    unfold Float_set, DateTime_set, Coordinate_set, Foreign_set, Field_set;
    simpl; rewrite Hb; reflexivity.
Qed.

Lemma bind_all_required h c kwargs names : forall inst i,
  bind_all h c names kwargs inst = Ok i ->
  forall n f, In n names -> assoc n (dict c) = Some (AField f) ->
    field_blank_allowed f = false -> is_None (kwargs_get kwargs n) = false.
Proof.
  induction names as [|m names IH]; intros inst i H n f Hin Hf Hb; [destruct Hin|].
  cbn [bind_all] in H.
  destruct (match assoc m (dict c) with
            | Some (AField f) => bind_field (h ++ [inst]) f m inst (kwargs_get kwargs m)
            | _ => Ok (setattr inst m (kwargs_get kwargs m))
            end) as [i1|] eqn:E; [|discriminate].
  cbn [rbind] in H. destruct Hin as [->|Hin]; [|eapply IH; eassumption].
  rewrite Hf in E. destruct (is_None (kwargs_get kwargs n)) eqn:Hn; [|reflexivity].
  apply is_None_true in Hn. rewrite Hn in E.
  rewrite bind_None_required in E by exact Hb. discriminate.
Qed.

Lemma bind_all_ext h c kwargs kwargs' names : forall inst,
  (forall n, In n names -> kwargs !! n = kwargs' !! n) ->
  bind_all h c names kwargs inst = bind_all h c names kwargs' inst.
Proof.
  induction names as [|m names IH]; intros inst H; [reflexivity|].
  cbn [bind_all]. unfold kwargs_get. rewrite (H m) by (left; reflexivity).
  destruct (match assoc m (dict c) with
            | Some (AField f) => _
            | _ => _
            end); [|reflexivity].
  cbn [rbind]. apply IH. intros n Hn. apply H. right. exact Hn.
Qed.

Lemma Table_init_Ok {db : Store} c kwargs (w : world db) l w' :
  Table_init c kwargs w = (Ok l, w') ->
  l = length (objects w) /\ store w' = store w /\ log w' = log w /\
  exists row, objects w' = objects w ++ [row] /\
    cls row = class_name c /\ pk row = VNone /\ version row = VNone /\
    bind_all (objects w) c (field_names c) kwargs
      (mk_instance (class_name c) VNone VNone None ∅) = Ok row.
Proof.
  destruct (Table_init_bind_all c kwargs w) as (last & E & Hlast).
  intros H. rewrite E in H.
  destruct (bind_all _ _ _ _ _) as [i|] eqn:B; [|discriminate].
  injection H as <- <-. cbn [objects store log].
  specialize (Hlast i eq_refl). subst last.
  split; [reflexivity|]. split; [reflexivity|]. split; [reflexivity|].
  exists i. split; [reflexivity|].
  pose proof (bind_all_identity _ _ _ _ _ _ B) as (?&?&?). auto.
Qed.

(** X8.  Constructing a row calls nothing on the Store.  When it returns,
    the row is a new object at the end of the heap, of the class
    constructed, without pk or version, and every field of the class that
    does not allow blanks was given a value other than None: a required
    field left out makes the construction fail.  Keyword arguments that
    name no field are ignored: two sets of arguments that agree on the
    field names construct the same row. *)
Theorem row_construction {db : Store} (c : table) (kwargs : gmap string value)
    (w : world db) :
  (forall l w', Table_init c kwargs w = (Ok l, w') ->
     l = length (objects w) /\ store w' = store w /\ log w' = log w /\
     (exists row, objects w' = objects w ++ [row] /\
        cls row = class_name c /\ pk row = VNone /\ version row = VNone) /\
     (forall n f, In n (field_names c) -> assoc n (dict c) = Some (AField f) ->
        field_blank_allowed f = false ->
        exists x, kwargs !! n = Some x /\ is_None x = false)) /\
  (forall e w', Table_init c kwargs w = (Raise e, w') ->
     store w' = store w /\ log w' = log w) /\
  (forall kwargs', (forall n, In n (field_names c) -> kwargs !! n = kwargs' !! n) ->
     Table_init c kwargs' w = Table_init c kwargs w).
Proof.
  split; [|split].
  - intros l w' H. apply Table_init_Ok in H.
    destruct H as (-> & Hs & Hl & row & Ho & Hc & Hp & Hv & B).
    repeat (split; [assumption || reflexivity|]). split; [eauto 6|].
    intros n f Hin Hf Hb.
    pose proof (bind_all_required _ _ _ _ _ _ B n f Hin Hf Hb) as Hn.
    unfold kwargs_get in Hn. destruct (kwargs !! n) as [x|]; [eauto|discriminate].
  - intros e w' H. destruct (Table_init_bind_all c kwargs w) as (last & E & _).
    rewrite E in H. injection H as _ <-. split; reflexivity.
  - intros kwargs' H. unfold Table_init, bind.
    destruct (alloc _ w) as [[self|e] w1]; [|reflexivity].
    rewrite (for_each_ext
               (fun _ field_name =>
                  setattr_on c self field_name (kwargs_get kwargs' field_name))
               (fun _ field_name =>
                  setattr_on c self field_name (kwargs_get kwargs field_name))).
    + reflexivity.
    + intros n acc w2 Hn. unfold kwargs_get. rewrite (H n Hn). reflexivity.
Qed.

Lemma row_construction_witness :
  Table_init Person (<["nickname" := VStr "A"]> {["name" := VStr "Ann"]})
    (empty_world no_probe)
  = Table_init Person {["name" := VStr "Ann"]} (empty_world no_probe).
Proof.
  apply (proj2 (proj2 (row_construction Person {["name" := VStr "Ann"]}
                         (empty_world no_probe)))).
  intros n [<-|[<-|[]]]; reflexivity.
Defined.

(** ** Fetching a row *)

Lemma compose_surplus f it v rest extra :
  get_field_assignable_obj_from_stream f it = Ok (v, rest) ->
  get_field_assignable_obj_from_stream f (it ++ extra) = Ok (v, rest ++ extra).
Proof.
  intros H. destruct (compose_consumes f "" it v rest H) as (used & -> & Hlen).
  destruct f; cbn [get_schema_repr_py length] in Hlen.
  1-4: destruct used as [|x [|]]; try discriminate Hlen; simpl in *;
       injection H as <-; reflexivity.
  - destruct used as [|y [|mo [|d [|hh [|mi [|s [|us [|]]]]]]]]; try discriminate Hlen.
    simpl in *. destruct (datetime_new y mo d hh mi s us); [|discriminate].
    injection H as <-. reflexivity.
  - destruct used as [|la [|lo [|]]]; try discriminate Hlen. simpl in *.
    injection H as <-. reflexivity.
Qed.

Section Fetched.

Context {db : Store}.

Lemma compose_fields_Ok c names : forall it acc (w : world db) kw w',
  compose_fields c names it acc w = (Ok kw, w') ->
  (exists used rest, it = used ++ rest /\ length used = slots_of c names) /\
  forall extra, compose_fields c names (it ++ extra) acc w = (Ok kw, w').
Proof.
  induction names as [|n names IH]; intros it acc w kw w' H; cbn [compose_fields] in *.
  - split; [exists [], it; split; reflexivity|]. intros extra. exact H.
  - unfold bind, class_attr in *. cbn [slots_of].
    destruct (assoc n (dict c)) as [[f|o]|]; try discriminate H.
    unfold ret at 1 in H. unfold ret at 1. unfold lift in *.
    destruct (get_field_assignable_obj_from_stream f it) as [[v rest]|] eqn:E;
      [|discriminate].
    cbn [fst snd] in H. destruct (IH _ _ _ _ _ H) as ((used & rest' & -> & Hlen) & Hx).
    destruct (compose_consumes f n it v _ E) as (used0 & -> & Hlen0).
    split.
    + exists (used0 ++ used), rest'. split; [apply app_assoc|].
      rewrite length_app. congruence.
    + intros extra. rewrite (compose_surplus _ _ _ _ extra E). cbn [fst snd].
      apply Hx.
Qed.

Lemma compose_fields_short c names : forall it acc (w : world db),
  (length it < slots_of c names)%nat ->
  exists e, compose_fields c names it acc w = (Raise e, w).
Proof.
  induction names as [|n names IH]; intros it acc w H; cbn [slots_of] in H; [lia|].
  cbn [compose_fields]. unfold bind, class_attr.
  destruct (assoc n (dict c)) as [[f|o]|]; try (eexists; reflexivity).
  unfold ret at 1. unfold lift.
  destruct (get_field_assignable_obj_from_stream f it) as [[v rest]|e] eqn:E;
    [|eexists; reflexivity].
  cbn [fst snd]. apply IH.
  destruct (compose_consumes f n it v rest E) as (used & -> & Hlen).
  rewrite length_app in H. lia.
Qed.

Lemma MetaTable_get_answer c p (w : world db) :
  MetaTable_get c p w =
  match db_get db (store w) (class_name c) p with
  | (Raise e, s) => (Raise e, mk_world (objects w) s (log w ++ [Get (class_name c) p]))
  | (Ok (vals, v), s) =>
      let w1 := mk_world (objects w) s (log w ++ [Get (class_name c) p]) in
      match compose_fields c (field_names c) vals ∅ w1 with
      | (Raise e, _) => (Raise e, w1)
      | (Ok kw, _) =>
          match Table_init c kw w1 with
          | (Raise e, w2) => (Raise e, w2)
          | (Ok l, w2) =>
              match objects w2 !! l with
              | Some inst =>
                  (Ok l, mk_world (<[l:=set_identity inst p (VInt v)]> (objects w2))
                                  (store w2) (log w2))
              | None => (Raise ill_formed, w2)
              end
          end
      end
  end.
Proof.
  unfold MetaTable_get, bind at 1, call_get.
  destruct (db_get db (store w) (class_name c) p) as [[[vals v]|e] s]; [|reflexivity].
  cbn [fst snd]. unfold bind at 1. cbv zeta.
  destruct (compose_fields c (field_names c) vals ∅ _) as [[kw|e] w1'] eqn:E.
  - apply compose_fields_pure in E. subst w1'. unfold bind at 1.
    destruct (Table_init c kw _) as [[l|e] w2]; [|reflexivity].
    unfold bind, read, write, ret. destruct (objects w2 !! l); reflexivity.
  - apply compose_fields_pure in E. subst w1'. reflexivity.
Qed.

End Fetched.

(** X9.  Fetching a row by pk asks the Store for the row once, whatever
    comes of it.  If the Store fails, its exception propagates and no object
    is made.  If the fetch returns, the row is a new object at the end of
    the heap, of the class asked, carrying the pk asked for and the version
    the Store answered, and the objects already there are untouched; the
    Store's values were at least as many as the slots of the class.  Fewer
    values than slots never yield a row, and values in surplus are
    ignored. *)
Theorem fetched_row {db : Store} (c : table) (p : value) (w : world db) :
  (forall r w', MetaTable_get c p w = (r, w') ->
     log w' = log w ++ [Get (class_name c) p] /\
     store w' = snd (db_get db (store w) (class_name c) p)) /\
  (forall e, fst (db_get db (store w) (class_name c) p) = Raise e ->
     MetaTable_get c p w
     = (Raise e, mk_world (objects w) (snd (db_get db (store w) (class_name c) p))
                          (log w ++ [Get (class_name c) p]))) /\
  (forall l w', MetaTable_get c p w = (Ok l, w') ->
     exists vals v row,
       fst (db_get db (store w) (class_name c) p) = Ok (vals, v) /\
       l = length (objects w) /\ objects w' = objects w ++ [row] /\
       cls row = class_name c /\ pk row = p /\ version row = VInt v /\
       (slots_of c (field_names c) <= length vals)%nat) /\
  (forall vals acc (w1 : world db),
     (length vals < slots_of c (field_names c))%nat ->
     exists e, compose_fields c (field_names c) vals acc w1 = (Raise e, w1)) /\
  (forall vals extra acc (w1 : world db) kw,
     compose_fields c (field_names c) vals acc w1 = (Ok kw, w1) ->
     compose_fields c (field_names c) (vals ++ extra) acc w1 = (Ok kw, w1)).
Proof.
  split; [|split; [|split; [|split]]].
  - intros r w' H. rewrite MetaTable_get_answer in H.
    destruct (db_get db (store w) (class_name c) p) as [[[vals v]|e] s];
      [|injection H as _ <-; split; reflexivity].
    cbv zeta in H.
    destruct (compose_fields c (field_names c) vals ∅ _) as [[kw|e] w1'];
      [|injection H as _ <-; split; reflexivity].
    destruct (Table_init c kw _) as [[l|e] w2] eqn:T;
      apply Table_init_last in T; destruct T as (i' & Ho & Hl & Hs & _);
      [|injection H as _ <-; split; assumption].
    destruct (objects w2 !! l); injection H as _ <-; split; assumption.
  - intros e He. rewrite MetaTable_get_answer.
    destruct (db_get db (store w) (class_name c) p) as [[[vals v]|e'] s];
      simpl in *; congruence.
  - intros l w' H. rewrite MetaTable_get_answer in H.
    destruct (db_get db (store w) (class_name c) p) as [[[vals v]|e] s];
      [|discriminate].
    cbv zeta in H.
    destruct (compose_fields c (field_names c) vals ∅ _) as [[kw|e] w1'] eqn:C;
      [|discriminate].
    apply compose_fields_Ok in C. destruct C as ((used & rest & -> & Hlen) & _).
    destruct (Table_init c kw _) as [[l'|e] w2] eqn:T; [|discriminate].
    apply Table_init_Ok in T. destruct T as (-> & Hs & Hl & row & Ho & Hc & _).
    cbn [objects] in Ho. rewrite Ho in H.
    rewrite list_lookup_middle in H by reflexivity. injection H as <- <-.
    exists (used ++ rest), v, (set_identity row p (VInt v)).
    cbn [objects fst]. rewrite insert_last.
    repeat split; try assumption. rewrite length_app. lia.
  - intros vals acc w1. apply compose_fields_short.
  - intros vals extra acc w1 kw H. apply compose_fields_Ok in H. apply H.
Qed.

Lemma fetched_row_witness :
  MetaTable_get Person (VInt 7) (empty_world no_probe)
  = (Raise NotFound,
     @mk_world (memory_store no_probe) [] (mk_memory 1 []) [Get "Person" (VInt 7)]).
Proof.
  exact (proj1 (proj2 (fetched_row Person (VInt 7) (empty_world no_probe)))
           NotFound eq_refl).
Defined.

(** ** A row fetched back *)


Lemma bind_field_heap h h' f n i x :
  is_Foreign f = false -> bind_field h f n i x = bind_field h' f n i x.
Proof. destruct f; try reflexivity. discriminate. Qed.





(** What a field reads depends on the attributes named after it only. *)
Lemma field_reads_frame f n i i' :
  is_Foreign f = false ->
  (forall key, stored_under key n -> attrs i' !! key = attrs i !! key) ->
  get_field f n i' = get_field f n i /\
  forall h h', get_decomposed_values h' f n i' = get_decomposed_values h f n i.
Proof.
  intros Hf A.
  assert (K : forall s, In s suffixes ->
                getattr i' (attr_name n +:+ s) = getattr i (attr_name n +:+ s)).
  { intros s Hs. apply getattr_frame, A. exists s. auto. }
  assert (K0 : getattr i' (attr_name n) = getattr i (attr_name n)).
  { rewrite <- (append_nil_r (attr_name n)). apply K. simpl. tauto. }
  split.
  - destruct f; cbn [get_field]; unfold Field_get, Coordinate_get; try exact K0.
    unfold latitude_attr_name, longitude_attr_name.
    rewrite !K by (simpl; tauto). reflexivity.
  - intros h h'. destruct f as [c|c|c|t b|c|c]; try discriminate Hf;
      cbn [get_decomposed_values];
      unfold Field_get, Coordinate_get, DateTime_get_decomposed_values,
        year_attr_name, month_attr_name,
        day_attr_name, hour_attr_name, minute_attr_name, second_attr_name,
        microsecond_attr_name, latitude_attr_name, longitude_attr_name;
      rewrite ?K0, ?K by (simpl; tauto); reflexivity.
Qed.





Section Rebuilding.

Context {db : Store}.


End Rebuilding.




(** ** What [filter] fetches *)

Section Hydrating.

Context {db : Store}.

Lemma MetaTable_get_Ok c p (w : world db) l w' :
  MetaTable_get c p w = (Ok l, w') ->
  l = length (objects w) /\
  log w' = log w ++ [Get (class_name c) p] /\
  exists row, objects w' = objects w ++ [row] /\
    cls row = class_name c /\ pk row = p.
Proof.
  intros H. rewrite MetaTable_get_answer in H.
  destruct (db_get db (store w) (class_name c) p) as [[[vals v]|e] s]; [|discriminate].
  cbv zeta in H.
  destruct (compose_fields c (field_names c) vals ∅ _) as [[kw|e] w1']; [|discriminate].
  destruct (Table_init c kw _) as [[l'|e] w2] eqn:T; [|discriminate].
  apply Table_init_Ok in T. destruct T as (-> & Hs & Hl & row & Ho & Hc & _).
  cbn [objects log] in *. rewrite Ho in H.
  rewrite list_lookup_middle in H by reflexivity. injection H as <- <-.
  cbn [objects log]. rewrite insert_last. split; [reflexivity|].
  split; [exact Hl|]. exists (set_identity row p (VInt v)). auto.
Qed.

(** The loop of [filter] that fetches the rows: one get per pk, in order,
    each making a new object at the end of the heap. *)
Lemma hydrate_loop c ids : forall acc (w : world db) ls w',
  for_each (fun objects id_ =>
              o <- MetaTable_get c (VInt id_) ;; ret (objects ++ [o])) ids acc w
  = (Ok ls, w') ->
  log w' = log w ++ map (fun id_ => Get (class_name c) (VInt id_)) ids /\
  ls = acc ++ seq (length (objects w)) (length ids) /\
  exists rows, objects w' = objects w ++ rows /\
    Forall2 (fun id_ row => pk row = VInt id_ /\ cls row = class_name c) ids rows.
Proof.
  induction ids as [|id_ ids IH]; intros acc w ls w' H.
  - injection H as <- <-. cbn. rewrite !app_nil_r. split; [reflexivity|].
    split; [reflexivity|]. exists []. rewrite app_nil_r. split; constructor.
  - cbn [for_each] in H. apply bind_Ok in H. destruct H as (acc' & w1 & H1 & H2).
    apply bind_Ok in H1. destruct H1 as (o & w1' & Hg & Hr).
    injection Hr as <- <-. apply MetaTable_get_Ok in Hg.
    destruct Hg as (-> & Hl & row & Ho & Hc & Hp).
    apply IH in H2. destruct H2 as (Hl2 & -> & rows & Ho2 & Hf).
    split; [|split].
    + rewrite Hl2, Hl. cbn [map]. rewrite <- app_assoc. reflexivity.
    + rewrite Ho, length_app. cbn [length seq]. rewrite <- app_assoc.
      cbn [app]. replace (length (objects w) + 1)%nat with (S (length (objects w))) by lia.
      reflexivity.
    + exists (row :: rows). split.
      * rewrite Ho2, Ho, <- app_assoc. reflexivity.
      * constructor; [split; assumption|exact Hf].
Qed.

End Hydrating.

(** X11.  What [filter] returns once the pks are known: every pk of the
    result is fetched with one get, in the order of the result, and each
    fetch makes a new object at the end of the heap, so the rows returned
    are that many new objects, in order, each of the class asked and
    carrying its pk.  [count] does the same work to return their number.
    Without criteria the pks are the Store's answer to one match-all scan;
    if that scan fails, its exception propagates and nothing is fetched. *)
Theorem filter_fetches_each_row {db : Store} (c : table)
    (kwarg : list (string * value)) (w : world db) :
  (forall ls w', filter_rows c kwarg w = (Ok ls, w') ->
     exists ids w1 rows,
       filter_ids c kwarg w = (Ok ids, w1) /\
       log w' = log w1 ++ map (fun id_ => Get (class_name c) (VInt id_)) ids /\
       ls = seq (length (objects w1)) (length ids) /\
       objects w' = objects w1 ++ rows /\
       Forall2 (fun id_ row => pk row = VInt id_ /\ cls row = class_name c) ids rows) /\
  (forall n w', count c kwarg w = (Ok n, w') ->
     exists ids w1,
       filter_ids c kwarg w = (Ok ids, w1) /\ n = length ids /\
       log w' = log w1 ++ map (fun id_ => Get (class_name c) (VInt id_)) ids) /\
  filter_ids c [] w
  = (fst (db_scan db (store w) (class_name c) AL None),
     mk_world (objects w) (snd (db_scan db (store w) (class_name c) AL None))
              (log w ++ [Scan (class_name c) AL None])) /\
  (forall e, fst (db_scan db (store w) (class_name c) AL None) = Raise e ->
     filter_rows c [] w
     = (Raise e,
        mk_world (objects w) (snd (db_scan db (store w) (class_name c) AL None))
                 (log w ++ [Scan (class_name c) AL None]))).
Proof.
  assert (F : forall ls w', filter_rows c kwarg w = (Ok ls, w') ->
     exists ids w1 rows,
       filter_ids c kwarg w = (Ok ids, w1) /\
       log w' = log w1 ++ map (fun id_ => Get (class_name c) (VInt id_)) ids /\
       ls = seq (length (objects w1)) (length ids) /\
       objects w' = objects w1 ++ rows /\
       Forall2 (fun id_ row => pk row = VInt id_ /\ cls row = class_name c) ids rows).
  { intros ls w' H. unfold filter_rows in H. apply bind_Ok in H.
    destruct H as (ids & w1 & Hi & H). apply hydrate_loop in H.
    destruct H as (Hl & -> & rows & Ho & Hf). exists ids, w1, rows. auto. }
  assert (S : filter_ids c [] w
    = (fst (db_scan db (store w) (class_name c) AL None),
       mk_world (objects w) (snd (db_scan db (store w) (class_name c) AL None))
                (log w ++ [Scan (class_name c) AL None]))).
  { cbn [filter_ids]. unfold call_scan. destruct (db_scan _ _ _ _ _). reflexivity. }
  split; [exact F|]. split; [|split; [exact S|]].
  - intros n w' H. unfold count in H. apply bind_Ok in H.
    destruct H as (ls & w2 & H & Hr). injection Hr as <- <-.
    apply F in H. destruct H as (ids & w1 & rows & Hi & Hl & -> & _).
    exists ids, w1. split; [exact Hi|]. split; [apply length_seq|exact Hl].
  - intros e He. unfold filter_rows, bind. rewrite S, He. reflexivity.
Qed.

Lemma filter_fetches_each_row_witness :
  exists ids w1,
    filter_ids Person []
      (@mk_world (memory_store year_misses) []
         (mk_memory 2 [mk_stored "Person" 1 [VStr "Ann"; VInt 0] 1]) [])
    = (Ok ids, w1) /\ 1%nat = length ids.
Proof.
  destruct (proj1 (proj2 (filter_fetches_each_row Person []
              (@mk_world (memory_store year_misses) []
                 (mk_memory 2 [mk_stored "Person" 1 [VStr "Ann"; VInt 0] 1]) [])))
              1%nat _ eq_refl)
    as (ids & w1 & Hi & Hn & _).
  exists ids, w1. split; assumption.
Defined.

(** ** A criterion on one column *)

Lemma prefix_dunder_no a r : Ascii.eqb a "_" = false -> String.prefix "__" (String.String a r) = false.
Proof.
  intros H.
  change (String.prefix "__" (String.String a r))
    with (if ascii_dec "_" a then String.prefix "_" r else false).
  destruct (ascii_dec "_" a) as [<-|Hne]; [discriminate H|reflexivity].
Qed.

Lemma prefix_dunder_yes r : String.prefix "__" (String.String "_" (String.String "_" r)) = true.
Proof. destruct r; reflexivity. Qed.

Lemma contains_dunder_lacks s : lacks "_" s = true -> contains "__" s = false.
Proof.
  induction s as [|a s IH]; intros H; [reflexivity|].
  rewrite lacks_cons in H. apply andb_true_iff in H. destruct H as [Ha Hs].
  apply negb_true_iff in Ha. cbn [contains]. rewrite prefix_dunder_no by exact Ha.
  apply IH. exact Hs.
Qed.

Lemma split_dunder_last s : forall cur,
  lacks "_" s = true -> split_scan "__" O s cur = [cur +:+ s].
Proof.
  induction s as [|a s IH]; intros cur H.
  - cbn [split_scan]. rewrite append_nil_r. reflexivity.
  - rewrite lacks_cons in H. apply andb_true_iff in H. destruct H as [Ha Hs].
    apply negb_true_iff in Ha. cbn [split_scan].
    rewrite prefix_dunder_no by exact Ha. rewrite IH by exact Hs.
    rewrite append_assoc. reflexivity.
Qed.

Lemma split_dunder col op : forall cur,
  lacks "_" col = true -> lacks "_" op = true ->
  split_scan "__" O (col +:+ "__" +:+ op) cur = [cur +:+ col; op].
Proof.
  induction col as [|a col IH]; intros cur Hc Ho.
  - rewrite append_nil_l, append_nil_r.
    change ("__" +:+ op) with (String.String "_" (String.String "_" op)).
    cbn [split_scan]. rewrite prefix_dunder_yes.
    cbn [String.length Nat.pred]. rewrite split_dunder_last by exact Ho.
    reflexivity.
  - rewrite lacks_cons in Hc. apply andb_true_iff in Hc. destruct Hc as [Ha Hc].
    apply negb_true_iff in Ha. rewrite append_cons. cbn [split_scan].
    rewrite prefix_dunder_no by exact Ha. rewrite IH by assumption.
    rewrite append_assoc. reflexivity.
Qed.

Lemma contains_dunder col op : contains "__" (col +:+ "__" +:+ op) = true.
Proof.
  induction col as [|a col IH].
  - rewrite append_nil_l.
    change ("__" +:+ op) with (String.String "_" (String.String "_" op)).
    cbn [contains]. rewrite prefix_dunder_yes. reflexivity.
  - rewrite append_cons. cbn [contains]. rewrite IH. apply orb_true_r.
Qed.

Lemma split_key_dunder col op :
  lacks "_" col = true -> lacks "_" op = true ->
  split_key (col +:+ "__" +:+ op) = Ok (col, op).
Proof.
  intros Hc Ho. unfold split_key, split. rewrite contains_dunder.
  rewrite split_dunder by assumption. reflexivity.
Qed.

Lemma split_key_plain col : lacks "_" col = true -> split_key col = Ok (col, "eq").
Proof.
  intros H. unfold split_key. rewrite contains_dunder_lacks by exact H. reflexivity.
Qed.

Lemma mem_str_In s l : mem_str s l = true <-> In s l.
Proof.
  unfold mem_str. rewrite existsb_exists. split.
  - intros (y & Hy & E). apply String.eqb_eq in E. subst. exact Hy.
  - intros H. exists s. split; [exact H|apply String.eqb_refl].
Qed.

Lemma first_column_hd f col :
  map fst (get_schema_repr_py f col)
  = first_column f col :: tl (map fst (get_schema_repr_py f col)).
Proof. destruct f; reflexivity. Qed.

Section OneColumn.

Context {db : Store}.

Lemma read_criteria_value (w : world db) k x col op val :
  split_key k = Ok (col, op) -> criterion_value w x = Some val ->
  read_criteria [(k, x)] ("", "", VNone) w = (Ok (col, op, val), w).
Proof.
  intros Hk Hv. unfold read_criteria, bind, lift, ret. rewrite Hk. cbn [fst snd].
  destruct x; simpl in Hv; try (injection Hv as <-; reflexivity).
  unfold read. destruct (objects w !! l); [|discriminate].
  injection Hv as <-. reflexivity.
Qed.

Lemma filter_ids_scalar (c : table) k col op o x val column (w : world db) :
  split_key k = Ok (col, op) ->
  In (op, o) [("eq", EQ); ("ne", NE); ("gt", GT); ("lt", LT)] ->
  criterion_value w x = Some val -> is_scalar val = true ->
  (col = "id" /\ column = "id" \/
   col <> "id" /\ In col (field_names c) /\
   exists f, assoc col (dict c) = Some (AField f) /\ column = first_column f col) ->
  filter_ids c [(k, x)] w = call_scan (class_name c) o (Some (column, val)) w.
Proof.
  intros Hk Hop Hv Hs Hcol. unfold filter_ids.
  unfold bind at 1. rewrite (read_criteria_value w k x col op val Hk Hv).
  assert (Hops : mem_str op ["ne"; "gt"; "lt"; "al"; "eq"] = true /\
                 String.eqb op "al" = false /\ mapping op = Ok o).
  { simpl in Hop.
    destruct Hop as [E|[E|[E|[E|[]]]]]; injection E as <- <-; repeat split. }
  destruct Hops as (H1 & H2 & H3). rewrite H1, H2. cbn [negb andb].
  assert (Hm : mem_str col (field_names c ++ ["id"]) = true).
  { apply mem_str_In, in_or_app.
    destruct Hcol as [[-> _]|(_ & Hin & _)]; [right; left; reflexivity|left; exact Hin]. }
  rewrite Hm. cbn [negb].
  assert (Hd : exists more,
    (if String.eqb col "id" then ret [col]
     else a <- class_attr c col ;;
          match a with
          | AField f => ret (map fst (get_schema_repr_py f col))
          | AOther _ => raise (Uncaught AttributeError "no attribute get_schema_repr_py")
          end) w = (Ok (column :: more), w)).
  { destruct Hcol as [[-> ->]|(Hne & _ & f & Hf & ->)].
    - exists []. reflexivity.
    - apply String.eqb_neq in Hne. rewrite Hne. unfold bind, class_attr.
      rewrite Hf. unfold ret. rewrite first_column_hd. eexists. reflexivity. }
  destruct Hd as [more Hd]. unfold bind at 1. rewrite Hd.
  assert (Hdated :
    match val with
    | VDateTime d =>
        vs <- lift (date_values d match val with VTuple vs => vs | _ => [val] end) ;;
        ret (true, vs)
    | _ => ret (false, match val with VTuple vs => vs | _ => [val] end)
    end w = (Ok (false, [val]), w)).
  { destruct val; try discriminate Hs; reflexivity. }
  unfold bind at 1. rewrite Hdated.
  unfold bind at 1. unfold lift at 1. rewrite H3.
  cbn [combine]. rewrite combine_nil. cbn [for_each]. unfold bind, ret.
  destruct (call_scan (class_name c) o (Some (column, val)) w) as [[r|e] w1];
    reflexivity.
Qed.

End OneColumn.

(** X12.  A criterion with a comparison operator and a value that is
    neither a tuple nor a timestamp costs one scan, and [filter] goes on
    with the Store's answer as it is.  The key is the column followed by a
    double underscore and the operator, or the column alone for equality.
    The scan is on the column itself for id and for a field of one slot;
    on a DateTime or Coordinate field it is on the first of the field's
    columns, the year or the latitude.  A row given as the value stands for
    its pk, None if it has none. *)
Theorem filter_on_one_column {db : Store} (c : table) (col op : string)
    (o : operator) (x val : value) (column : string) (w : world db) :
  lacks "_" col = true ->
  In (op, o) [("eq", EQ); ("ne", NE); ("gt", GT); ("lt", LT)] ->
  criterion_value w x = Some val -> is_scalar val = true ->
  (col = "id" /\ column = "id" \/
   col <> "id" /\ In col (field_names c) /\
   exists f, assoc col (dict c) = Some (AField f) /\ column = first_column f col) ->
  filter_ids c [(col +:+ "__" +:+ op, x)] w
  = call_scan (class_name c) o (Some (column, val)) w /\
  (op = "eq" ->
   filter_ids c [(col, x)] w = call_scan (class_name c) o (Some (column, val)) w).
Proof.
  intros Hc Hop Hv Hs Hcol. split.
  - apply (filter_ids_scalar c _ col op); try assumption.
    apply split_key_dunder; [exact Hc|].
    simpl in Hop. destruct Hop as [E|[E|[E|[E|[]]]]]; injection E as <- _; reflexivity.
  - intros ->. apply (filter_ids_scalar c _ col "eq"); try assumption.
    apply split_key_plain. exact Hc.
Qed.

Lemma filter_on_one_column_witness :
  filter_ids Book [("author__ne", VObj 0%nat)] shelf_world
  = call_scan "Book" NE (Some ("author", VNone)) shelf_world.
Proof.
  assert (Hcol : "author" = "id" /\ "author" = "id" \/
                 "author" <> "id" /\ In "author" (field_names Book) /\
                 exists f, assoc "author" (dict Book) = Some (AField f) /\
                           "author" = first_column f "author").
  { right. split; [discriminate|]. split; [right; left; reflexivity|].
    exists (Foreign "Author" true). split; reflexivity. }
  assert (Hop : In ("ne", NE) [("eq", EQ); ("ne", NE); ("gt", GT); ("lt", LT)])
    by (right; left; reflexivity).
  exact (proj1 (filter_on_one_column Book "author" "ne" NE (VObj 0%nat) VNone
                  "author" shelf_world eq_refl Hop eq_refl eq_refl Hcol)).
Defined.

(** ** A tuple as criterion *)

Lemma intersection_spec (first : list Z) (others : list (list Z)) :
  NoDup (intersection (first :: others)) /\
  forall z, In z (intersection (first :: others)) <->
            forall r, In r (first :: others) -> In z r.
Proof.
  unfold intersection. split.
  - apply NoDup_filter, NoDup_remove_dups.
  - intros z. rewrite <- list_elem_of_In, list_elem_of_filter, elem_of_remove_dups.
    rewrite Is_true_true, forallb_forall. split.
    + intros [H _] r Hr. specialize (H r Hr). apply bool_decide_eq_true in H.
      apply list_elem_of_In. exact H.
    + intros H. split.
      * intros r Hr. apply bool_decide_eq_true, list_elem_of_In, H, Hr.
      * apply list_elem_of_In, H. left. reflexivity.
Qed.

Section Tuples.

Context {db : Store}.

Lemma filter_ids_tuple (c : table) k col op o vs cols (w : world db) :
  split_key k = Ok (col, op) ->
  In (op, o) [("eq", EQ); ("ne", NE); ("gt", GT); ("lt", LT)] ->
  (col = "id" /\ cols = ["id"] \/
   col <> "id" /\ In col (field_names c) /\
   exists f, assoc col (dict c) = Some (AField f) /\
             cols = map fst (get_schema_repr_py f col)) ->
  filter_ids c [(k, VTuple vs)] w
  = bind (for_each (scan_step (class_name c) o) (combine cols vs) [])
         (fun results =>
            match results with
            | [] => raise (Uncaught IndexError "list index out of range")
            | first :: others =>
                ret (if is_empty_list others then first else intersection results)
            end) w.
Proof.
  intros Hk Hop Hcol. unfold filter_ids.
  unfold bind at 1.
  rewrite (read_criteria_value w k (VTuple vs) col op (VTuple vs) Hk eq_refl).
  assert (Hops : mem_str op ["ne"; "gt"; "lt"; "al"; "eq"] = true /\
                 String.eqb op "al" = false /\ mapping op = Ok o).
  { simpl in Hop.
    destruct Hop as [E|[E|[E|[E|[]]]]]; injection E as <- <-; repeat split. }
  destruct Hops as (H1 & H2 & H3). rewrite H1, H2. cbn [negb andb].
  assert (Hm : mem_str col (field_names c ++ ["id"]) = true).
  { apply mem_str_In, in_or_app.
    destruct Hcol as [[-> _]|(_ & Hin & _)]; [right; left; reflexivity|left; exact Hin]. }
  rewrite Hm. cbn [negb].
  assert (Hd :
    (if String.eqb col "id" then ret [col]
     else a <- class_attr c col ;;
          match a with
          | AField f => ret (map fst (get_schema_repr_py f col))
          | AOther _ => raise (Uncaught AttributeError "no attribute get_schema_repr_py")
          end) w = (Ok cols, w)).
  { destruct Hcol as [[-> ->]|(Hne & _ & f & Hf & ->)].
    - reflexivity.
    - apply String.eqb_neq in Hne. rewrite Hne. unfold bind, class_attr.
      rewrite Hf. reflexivity. }
  unfold bind at 1. rewrite Hd.
  unfold bind at 1. unfold ret at 1.
  unfold bind at 1. unfold lift at 1. rewrite H3.
  unfold bind. fold (scan_step (db:=db) (class_name c) o).
  destruct (for_each _ _ _ w) as [[results|e] w1]; [|reflexivity].
  destruct results as [|first others]; reflexivity.
Qed.

End Tuples.

(** X13.  A tuple as criterion value is taken apart: its components are
    paired with the columns of the field, one scan each, in order, and what
    is left over on either side is dropped.  On a Coordinate field a pair
    costs two scans, of the latitude and then of the longitude column, and
    the pks [filter] goes on with are those in both answers, each once.  An
    empty tuple pairs with nothing: no scan is issued, and reading the first
    answer raises IndexError. *)
Theorem filter_on_tuple {db : Store} (c : table) (col op : string) (o : operator)
    (conf : cfg) (w : world db) :
  lacks "_" col = true -> col <> "id" -> In col (field_names c) ->
  assoc col (dict c) = Some (AField (Coordinate conf)) ->
  In (op, o) [("eq", EQ); ("ne", NE); ("gt", GT); ("lt", LT)] ->
  filter_rows c [(col +:+ "__" +:+ op, VTuple [])] w
  = (Raise (Uncaught IndexError "list index out of range"), w) /\
  forall a b ids w',
    filter_ids c [(col +:+ "__" +:+ op, VTuple [a; b])] w = (Ok ids, w') ->
    exists r1 r2 s1,
      db_scan db (store w) (class_name c) o (Some (col +:+ "_latitude", a))
      = (Ok r1, s1) /\
      db_scan db s1 (class_name c) o (Some (col +:+ "_longitude", b))
      = (Ok r2, store w') /\
      log w' = log w ++ [Scan (class_name c) o (Some (col +:+ "_latitude", a));
                         Scan (class_name c) o (Some (col +:+ "_longitude", b))] /\
      objects w' = objects w /\
      NoDup ids /\ forall z, In z ids <-> In z r1 /\ In z r2.
Proof.
  intros Hc Hne Hin Hf Hop.
  assert (Hk : split_key (col +:+ "__" +:+ op) = Ok (col, op)).
  { apply split_key_dunder; [exact Hc|].
    simpl in Hop. destruct Hop as [E|[E|[E|[E|[]]]]]; injection E as <- _; reflexivity. }
  assert (T : forall vs,
    filter_ids c [(col +:+ "__" +:+ op, VTuple vs)] w
    = bind (for_each (scan_step (class_name c) o)
              (combine [col +:+ "_latitude"; col +:+ "_longitude"] vs) [])
           (fun results =>
              match results with
              | [] => raise (Uncaught IndexError "list index out of range")
              | first :: others =>
                  ret (if is_empty_list others then first else intersection results)
              end) w).
  { intros vs. apply (filter_ids_tuple c _ col op); try assumption.
    right. split; [exact Hne|]. split; [exact Hin|]. eexists. split; [exact Hf|].
    reflexivity. }
  split.
  - unfold filter_rows, bind at 1. rewrite T. reflexivity.
  - intros a b ids w' H. rewrite T in H. cbn [combine for_each] in H.
    unfold bind, scan_step, bind, call_scan, ret in H.
    destruct (db_scan db (store w) (class_name c) o (Some (col +:+ "_latitude", a)))
      as [[r1|e] s1] eqn:E1; [|discriminate].
    cbn [store objects log] in H.
    destruct (db_scan db s1 (class_name c) o (Some (col +:+ "_longitude", b)))
      as [[r2|e] s2] eqn:E2; [|discriminate].
    cbn [app is_empty_list] in H. injection H as <- <-.
    exists r1, r2, s1. cbn [store objects log].
    split; [reflexivity|]. split; [exact E2|].
    split; [rewrite <- app_assoc; reflexivity|]. split; [reflexivity|].
    destruct (intersection_spec r1 [r2]) as [Hnd Hi]. split; [exact Hnd|].
    intros z. rewrite Hi. split.
    + intros H. split; apply H; simpl; auto.
    + intros [H1 H2] r [<-|[<-|[]]]; assumption.
Qed.

Lemma filter_on_tuple_witness :
  filter_rows (mk_table "Place" ["at"] [("at", AField at_field)])
    [("at__eq", VTuple [])] (empty_world no_probe)
  = (Raise (Uncaught IndexError "list index out of range"), empty_world no_probe).
Proof.
  assert (Hop : In ("eq", EQ) [("eq", EQ); ("ne", NE); ("gt", GT); ("lt", LT)])
    by (left; reflexivity).
  assert (Hne : "at" <> "id") by discriminate.
  assert (Hin : In "at" ["at"]) by (left; reflexivity).
  exact (proj1 (filter_on_tuple (mk_table "Place" ["at"] [("at", AField at_field)])
                  "at" "eq" EQ _ (empty_world no_probe) eq_refl Hne Hin eq_refl Hop)).
Defined.

(** ** A timestamp as criterion *)



(** ** What a save leaves alone *)

(** X15.  Whatever a save does and however it ends, it only adds to the
    log of Store calls, and every object that was in the heap is still
    there with its class, its field attributes and its flag; its pk is as
    before, unless it was None and an insert into the row's table, issued
    during the save, gave it a pk that the Store handed out.  A pk once
    given is never changed or taken away by a save. *)
Theorem save_touches_identity_only {db : Store} (classes : gmap string table)
    (depth : nat) (atomic : bool) (self : loc) (w : world db) :
  exists delta,
    log (snd (save classes depth atomic self w)) = log w ++ delta /\
    forall l i, objects w !! l = Some i ->
      exists i', objects (snd (save classes depth atomic self w)) !! l = Some i' /\
        cls i' = cls i /\ attrs i' = attrs i /\
        is_reference_lazy_loaded i' = is_reference_lazy_loaded i /\
        (pk i' = pk i \/
         (pk i = VNone /\
          exists p values, pk i' = VInt p /\ issued db p /\
                           In (Insert (cls i) values) delta)).
Proof.
  destruct (save classes depth atomic self w) as [r w'] eqn:E.
  exact (preserves_save classes depth atomic self w r w' E).
Qed.

(** ** Rows that hold each other *)

Section Cycle.

Context {db : Store} (classes : gmap string table).

Lemma save_field_eager_unsaved S c t blank f self acc (w : world db) inst l row :
  assoc f (dict c) = Some (AField (Foreign t blank)) ->
  objects w !! self = Some inst ->
  attrs inst !! attr_name f = Some (VObj l) ->
  is_reference_lazy_loaded inst = Some false ->
  objects w !! l = Some row -> pk row = VNone ->
  forall e w', S l w = (Raise e, w') ->
  save_field classes S c self acc f w = (Raise e, w').
Proof.
  intros Hf Hs Ha Hl Hrow Hpk e w' HS.
  unfold save_field, bind, class_attr. rewrite Hf. unfold ret at 1.
  unfold cascade, bind, getattr_default.
  rewrite (Foreign_get_eager classes t f self w inst l Hs Ha Hl).
  unfold read. rewrite Hrow, Hpk. cbn [is_None]. rewrite HS. reflexivity.
Qed.

Lemma save_stuck_at c pre f post self (w : world db) inst atomic d e w' :
  objects w !! self = Some inst -> classes !! cls inst = Some c ->
  field_names c = pre ++ f :: post ->
  Forall (plain_field c (objects w) inst) pre ->
  (forall acc, save_field classes (save classes d true) c self acc f w = (Raise e, w')) ->
  save classes (S d) atomic self w = (Raise e, w').
Proof.
  intros Hs Hc Hn Hp Hf. cbn [save]. unfold bind at 1.
  unfold collect_values, bind, class_of, bind, read. rewrite Hs, Hc.
  unfold ret at 1. rewrite Hn, for_each_app. unfold bind at 1.
  destruct (loop_plain classes (save classes d true) c self pre [] w inst Hs Hp)
    as [vs E].
  rewrite E. cbn [for_each]. unfold bind at 1. rewrite Hf. reflexivity.
Qed.

(** X16.  Two rows without pk that hold each other by value, each in a
    Foreign field that comes after fields which are no references, cannot
    be saved: saving either of them goes from one to the other until the
    interpreter gives up, with RecursionError, and nothing is sent to the
    Store.  A row that holds itself is the case where the two are one. *)
Theorem save_cycle (a b : loc) (ia ib : instance) (ca cb : table)
    (prea posta preb postb : list string) (fa fb ta tb : string)
    (blanka blankb : bool) (w : world db) :
  objects w !! a = Some ia -> objects w !! b = Some ib ->
  pk ia = VNone -> pk ib = VNone ->
  classes !! cls ia = Some ca -> classes !! cls ib = Some cb ->
  field_names ca = prea ++ fa :: posta -> field_names cb = preb ++ fb :: postb ->
  Forall (plain_field ca (objects w) ia) prea ->
  Forall (plain_field cb (objects w) ib) preb ->
  assoc fa (dict ca) = Some (AField (Foreign ta blanka)) ->
  assoc fb (dict cb) = Some (AField (Foreign tb blankb)) ->
  attrs ia !! attr_name fa = Some (VObj b) ->
  attrs ib !! attr_name fb = Some (VObj a) ->
  is_reference_lazy_loaded ia = Some false ->
  is_reference_lazy_loaded ib = Some false ->
  forall depth atomic,
    save classes depth atomic a w
    = (Raise (Uncaught RecursionError "maximum recursion depth exceeded"), w) /\
    save classes depth atomic b w
    = (Raise (Uncaught RecursionError "maximum recursion depth exceeded"), w).
Proof.
  intros Ha Hb Pa Pb Ca Cb Na Nb Fa Fb Aa Ab Ra Rb La Lb.
  induction depth as [|d IH]; intros atomic; [split; reflexivity|].
  destruct (IH true) as [IHa IHb]. split.
  - eapply save_stuck_at; try eassumption. intros acc.
    eapply save_field_eager_unsaved; eassumption.
  - eapply save_stuck_at; try eassumption. intros acc.
    eapply save_field_eager_unsaved; eassumption.
Qed.

End Cycle.

Lemma save_cycle_witness :
  save {["Node" := Node]} 1000 true 0%nat ring_world
  = (Raise (Uncaught RecursionError "maximum recursion depth exceeded"), ring_world).
Proof.
  exact (proj1 (save_cycle {["Node" := Node]} 0%nat 1%nat _ _ Node Node
                  [] [] [] [] "next" "next" "Node" "Node" true true ring_world
                  eq_refl eq_refl eq_refl eq_refl eq_refl eq_refl eq_refl eq_refl
                  (List.Forall_nil _) (List.Forall_nil _) eq_refl eq_refl eq_refl eq_refl
                  eq_refl eq_refl 1000%nat true)).
Defined.

(** ** Saving a row of plain fields, again and again *)

Section Plain.

Context {db : Store} (classes : gmap string table).

Lemma plain_field_attrs c h h' i i' n :
  attrs i' = attrs i -> plain_field c h i n -> plain_field c h' i' n.
Proof.
  intros A (f & vs & Hf & Hp & Hd). exists f, vs. split; [exact Hf|].
  split; [exact Hp|]. rewrite <- Hd.
  apply (field_reads_frame f n i i' Hp). intros key _. rewrite A. reflexivity.
Qed.

Lemma decompose_all_attrs c h h' i i' names :
  attrs i' = attrs i -> Forall (plain_field c h i) names ->
  decompose_all h' c i' names = decompose_all h c i names.
Proof.
  intros A. induction names as [|n names IH]; intros H; [reflexivity|].
  inversion H as [|? ? (f & vs & Hf & Hp & Hd) H']; subst.
  cbn [decompose_all]. rewrite Hf, (IH H').
  rewrite (proj2 (field_reads_frame f n i i' Hp
                    (fun key _ => f_equal (fun m => m !! key) A)) h h').
  reflexivity.
Qed.

(** The loop of a save over plain fields returns the row decomposed and
    calls nothing. *)
Lemma loop_plain_values S c self names : forall acc (w : world db) inst,
  objects w !! self = Some inst ->
  Forall (plain_field c (objects w) inst) names ->
  exists vs, decompose_all (objects w) c inst names = Ok vs /\
             for_each (save_field classes S c self) names acc w = (Ok (acc ++ vs), w).
Proof.
  induction names as [|n names IH]; intros acc w inst Hs Hp.
  - exists []. rewrite app_nil_r. split; reflexivity.
  - inversion Hp as [|? ? Hn Hp']; subst.
    destruct Hn as (f & chunk & Hf & Hnf & Hd).
    destruct (IH (acc ++ chunk) w inst Hs Hp') as (vs & Hvs & Hl).
    exists (chunk ++ vs). cbn [decompose_all for_each]. rewrite Hf, Hd, Hvs.
    split; [reflexivity|]. unfold bind at 1.
    assert (E : save_field classes S c self acc n w = (Ok (acc ++ chunk), w)).
    { unfold save_field, bind, class_attr. rewrite Hf. unfold ret at 1.
      destruct f; try discriminate; unfold ret at 1; unfold read; rewrite Hs;
        unfold heap_now, lift; rewrite Hd; reflexivity. }
    rewrite E, Hl, app_assoc. reflexivity.
Qed.

Lemma save_plain self (w : world db) inst c :
  objects w !! self = Some inst -> classes !! cls inst = Some c ->
  Forall (plain_field c (objects w) inst) (field_names c) ->
  exists vs, decompose_all (objects w) c inst (field_names c) = Ok vs /\
    forall d atomic,
      save classes (S d) atomic self w = store_row atomic self vs w.
Proof.
  intros Hs Hc Hp.
  destruct (loop_plain_values (fun _ => ret tt) c self (field_names c) [] w inst Hs Hp)
    as (vs & Hvs & _).
  exists vs. split; [exact Hvs|]. intros d atomic. cbn [save]. unfold bind at 1.
  unfold collect_values, bind, class_of, bind, read. rewrite Hs, Hc.
  unfold ret at 1.
  destruct (loop_plain_values (save classes d true) c self (field_names c) [] w inst Hs Hp)
    as (vs' & Hvs' & Hl).
  rewrite Hl. assert (vs' = vs) as -> by congruence. reflexivity.
Qed.

End Plain.

Section Again.

Context {db : Store} (classes : gmap string table).

Lemma store_row_insert atomic self vs (w : world db) inst :
  objects w !! self = Some inst -> pk inst = VNone ->
  store_row atomic self vs w =
  match db_insert db (store w) (cls inst) vs with
  | (Ok (p, v), s) =>
      (Ok tt, mk_world (<[self:=set_identity inst (VInt p) (VInt v)]> (objects w)) s
                       (log w ++ [Insert (cls inst) vs]))
  | (Raise e, s) => (Raise e, mk_world (objects w) s (log w ++ [Insert (cls inst) vs]))
  end.
Proof.
  intros Hs Hp. unfold store_row, bind, read. rewrite Hs, Hp. cbn [is_None].
  unfold call_insert, write.
  destruct (db_insert db (store w) (cls inst) vs) as [[[p v]|e] s]; reflexivity.
Qed.

Lemma store_row_update atomic self vs (w : world db) inst :
  objects w !! self = Some inst -> is_None (pk inst) = false ->
  store_row atomic self vs w =
  match db_update db (store w) (cls inst) (pk inst) vs
          (if atomic then Some (version inst) else None) with
  | (Ok v, s) =>
      (Ok tt, mk_world (<[self:=set_version inst (VInt v)]> (objects w)) s
                (log w ++ [Update (cls inst) (pk inst) vs
                             (if atomic then Some (version inst) else None)]))
  | (Raise e, s) =>
      (Raise e, mk_world (objects w) s
                  (log w ++ [Update (cls inst) (pk inst) vs
                               (if atomic then Some (version inst) else None)]))
  end.
Proof.
  intros Hs Hp. unfold store_row, bind, read. rewrite Hs, Hp.
  destruct atomic; unfold call_update, write;
    match goal with
    | |- context [db_update ?a ?b ?c ?d ?e ?f] =>
        destruct (db_update a b c d e f) as [[v|e'] s]; reflexivity
    end.
Qed.

(** X17.  The first save of a row of plain fields and the saves after it.
    The row decomposes to one list of values.  The first save inserts them
    and the row takes the pk and the version the Store returns.  Every
    later save of the unchanged row sends an update of the same values under
    that pk, with the version the row then holds as the expected version if
    the save is atomic and with none if it is not, and the row takes the new
    version; a refused update leaves the row as it was. *)
Theorem save_then_save (self : loc) (w : world db) (inst : instance) (c : table) :
  objects w !! self = Some inst -> pk inst = VNone ->
  classes !! cls inst = Some c ->
  Forall (plain_field c (objects w) inst) (field_names c) ->
  exists vs,
    decompose_all (objects w) c inst (field_names c) = Ok vs /\
    forall d1 a1 p v s,
      db_insert db (store w) (cls inst) vs = (Ok (p, v), s) ->
      save classes (S d1) a1 self w
      = (Ok tt, mk_world (<[self:=set_identity inst (VInt p) (VInt v)]> (objects w)) s
                         (log w ++ [Insert (cls inst) vs])) /\
      forall d2 a2,
        save classes (S d2) a2 self
          (mk_world (<[self:=set_identity inst (VInt p) (VInt v)]> (objects w)) s
                    (log w ++ [Insert (cls inst) vs]))
        = match db_update db s (cls inst) (VInt p) vs
                  (if a2 then Some (VInt v) else None) with
          | (Ok v', s') =>
              (Ok tt,
               mk_world (<[self:=set_identity inst (VInt p) (VInt v')]> (objects w)) s'
                 (log w ++ [Insert (cls inst) vs;
                            Update (cls inst) (VInt p) vs
                              (if a2 then Some (VInt v) else None)]))
          | (Raise e, s') =>
              (Raise e,
               mk_world (<[self:=set_identity inst (VInt p) (VInt v)]> (objects w)) s'
                 (log w ++ [Insert (cls inst) vs;
                            Update (cls inst) (VInt p) vs
                              (if a2 then Some (VInt v) else None)]))
          end.
Proof.
  intros Hs Hp Hc Hpl.
  destruct (save_plain classes self w inst c Hs Hc Hpl) as (vs & Hvs & Hsave).
  exists vs. split; [exact Hvs|]. intros d1 a1 p v s Hins.
  assert (Hlt : (self < length (objects w))%nat) by (eapply lookup_lt_Some; eassumption).
  split.
  - rewrite Hsave, (store_row_insert a1 self vs w inst Hs Hp), Hins. reflexivity.
  - intros d2 a2.
    set (inst1 := set_identity inst (VInt p) (VInt v)).
    set (w1 := mk_world (<[self:=inst1]> (objects w)) s (log w ++ [Insert (cls inst) vs])).
    assert (Hs1 : objects w1 !! self = Some inst1)
      by (apply list_lookup_insert_eq; exact Hlt).
    assert (Hpl1 : Forall (plain_field c (objects w1) inst1) (field_names c)).
    { eapply Forall_impl; [exact Hpl|]. intros n Hn.
      eapply plain_field_attrs; [|exact Hn]. reflexivity. }
    destruct (save_plain classes self w1 inst1 c Hs1 Hc Hpl1) as (vs1 & Hvs1 & Hsave1).
    assert (vs1 = vs) as ->.
    { rewrite (decompose_all_attrs c (objects w) (objects w1) inst inst1) in Hvs1;
        [congruence|reflexivity|exact Hpl]. }
    rewrite Hsave1, (store_row_update a2 self vs w1 inst1 Hs1 eq_refl).
    cbn [w1 inst1 set_identity cls pk version store objects log].
    destruct (db_update db s (cls inst) (VInt p) vs _) as [[v'|e] s'];
      rewrite <- app_assoc; [|reflexivity].
    rewrite list_insert_insert_eq. reflexivity.
Qed.

(** X18.  A row that was deleted can be saved again.  When the Store drops
    a row of plain fields, the row is left without pk and version, and the
    next save inserts its values afresh: it sends an insert, not an update,
    and the row takes whatever new pk and version the Store returns. *)
Theorem delete_then_save (self : loc) (w : world db) (inst : instance) (c : table)
    (s : state db) :
  objects w !! self = Some inst -> classes !! cls inst = Some c ->
  Forall (plain_field c (objects w) inst) (field_names c) ->
  db_drop db (store w) (cls inst) (pk inst) = (Ok tt, s) ->
  exists vs,
    decompose_all (objects w) c inst (field_names c) = Ok vs /\
    delete self w
    = (Ok tt, mk_world (<[self:=set_identity inst VNone VNone]> (objects w)) s
                       (log w ++ [Drop (cls inst) (pk inst)])) /\
    forall d atomic,
      save classes (S d) atomic self
        (mk_world (<[self:=set_identity inst VNone VNone]> (objects w)) s
                  (log w ++ [Drop (cls inst) (pk inst)]))
      = match db_insert db s (cls inst) vs with
        | (Ok (p, v), s') =>
            (Ok tt,
             mk_world (<[self:=set_identity inst (VInt p) (VInt v)]> (objects w)) s'
               (log w ++ [Drop (cls inst) (pk inst); Insert (cls inst) vs]))
        | (Raise e, s') =>
            (Raise e,
             mk_world (<[self:=set_identity inst VNone VNone]> (objects w)) s'
               (log w ++ [Drop (cls inst) (pk inst); Insert (cls inst) vs]))
        end.
Proof.
  intros Hs Hc Hpl Hdrop.
  destruct (save_plain classes self w inst c Hs Hc Hpl) as (vs & Hvs & _).
  exists vs. split; [exact Hvs|].
  assert (Hlt : (self < length (objects w))%nat) by (eapply lookup_lt_Some; eassumption).
  split.
  - unfold delete, bind, read, call_drop, write. rewrite Hs, Hdrop. reflexivity.
  - intros d atomic.
    set (inst1 := set_identity inst VNone VNone).
    set (w1 := mk_world (<[self:=inst1]> (objects w)) s
                 (log w ++ [Drop (cls inst) (pk inst)])).
    assert (Hs1 : objects w1 !! self = Some inst1)
      by (apply list_lookup_insert_eq; exact Hlt).
    assert (Hpl1 : Forall (plain_field c (objects w1) inst1) (field_names c)).
    { eapply Forall_impl; [exact Hpl|]. intros n Hn.
      eapply plain_field_attrs; [|exact Hn]. reflexivity. }
    destruct (save_plain classes self w1 inst1 c Hs1 Hc Hpl1) as (vs1 & Hvs1 & Hsave1).
    assert (vs1 = vs) as ->.
    { rewrite (decompose_all_attrs c (objects w) (objects w1) inst inst1) in Hvs1;
        [congruence|reflexivity|exact Hpl]. }
    rewrite Hsave1, (store_row_insert atomic self vs w1 inst1 Hs1 eq_refl).
    cbn [w1 inst1 set_identity cls pk version store objects log].
    destruct (db_insert db s (cls inst) vs) as [[[p v]|e] s'];
      rewrite <- app_assoc; [|reflexivity].
    rewrite list_insert_insert_eq. reflexivity.
Qed.

End Again.

Lemma save_then_save_witness :
  save library 1 false 0%nat
    (@mk_world (memory_store no_probe) [set_identity ann_new (VInt 1) (VInt 1)]
       (mk_memory 2 [mk_stored "Person" 1 [VStr "Ann"; VInt 0] 1])
       [Insert "Person" [VStr "Ann"; VInt 0]])
  = (Ok tt,
     @mk_world (memory_store no_probe) [set_identity ann_new (VInt 1) (VInt 2)]
       (mk_memory 2 [mk_stored "Person" 1 [VStr "Ann"; VInt 0] 2])
       [Insert "Person" [VStr "Ann"; VInt 0];
        Update "Person" (VInt 1) [VStr "Ann"; VInt 0] None]).
Proof.
  destruct (save_then_save library 0%nat ann_new_world ann_new Person
              eq_refl eq_refl eq_refl) as (vs & Hvs & H).
  - constructor; [|constructor; [|constructor]]; eexists _, _; repeat split.
  - assert (vs = [VStr "Ann"; VInt 0]) as -> by (vm_compute in Hvs; congruence).
    exact (proj2 (H 0%nat true 1 1 _ eq_refl) 0%nat false).
Defined.

Lemma delete_then_save_witness :
  save library 1 true 0%nat
    (@mk_world (memory_store no_probe) [set_identity ann VNone VNone]
       (mk_memory 2 []) [Drop "Person" (VInt 1)])
  = (Ok tt,
     @mk_world (memory_store no_probe) [set_identity ann (VInt 2) (VInt 1)]
       (mk_memory 3 [mk_stored "Person" 2 [VStr "Ann"; VInt 0] 1])
       [Drop "Person" (VInt 1); Insert "Person" [VStr "Ann"; VInt 0]]).
Proof.
  destruct (delete_then_save library 0%nat ann_world ann Person (mk_memory 2 [])
              eq_refl eq_refl) as (vs & Hvs & _ & H).
  - constructor; [|constructor; [|constructor]]; eexists _, _; repeat split.
  - reflexivity.
  - assert (vs = [VStr "Ann"; VInt 0]) as -> by (vm_compute in Hvs; congruence).
    exact (H 0%nat true).
Defined.

(** ** A reference held as a pk *)

Section HeldAsPk.

Context {db : Store} (classes : gmap string table).

Lemma cascade_eager_pk S c t f self (w : world db) inst z :
  objects w !! self = Some inst ->
  attrs inst !! attr_name f = Some (VInt z) ->
  is_reference_lazy_loaded inst = Some false ->
  cascade classes S c t f self w
  = (Raise (Uncaught AttributeError "object has no attribute pk"), w).
Proof.
  intros Hs Ha Hl. unfold cascade, bind, getattr_default, Foreign_get, bind, read, lift.
  rewrite Hs. unfold getattr. rewrite Ha. cbn [is_None]. rewrite Hl. reflexivity.
Qed.

Lemma save_field_eager_pk S c t blank f self acc (w : world db) inst z :
  assoc f (dict c) = Some (AField (Foreign t blank)) ->
  objects w !! self = Some inst ->
  attrs inst !! attr_name f = Some (VInt z) ->
  is_reference_lazy_loaded inst = Some false ->
  save_field classes S c self acc f w
  = (Raise (Uncaught AttributeError "object has no attribute pk"), w).
Proof.
  intros Hf Hs Ha Hl. unfold save_field, bind, class_attr. rewrite Hf.
  unfold ret at 1. erewrite cascade_eager_pk by eassumption. reflexivity.
Qed.

Lemma loop_eager_pk S c t blank f self z names :
  (forall l, preserves (S l)) ->
  assoc f (dict c) = Some (AField (Foreign t blank)) ->
  forall acc (w : world db) inst,
    In f names ->
    objects w !! self = Some inst ->
    attrs inst !! attr_name f = Some (VInt z) ->
    is_reference_lazy_loaded inst = Some false ->
    exists e w', for_each (save_field classes S c self) names acc w = (Raise e, w').
Proof.
  intros HS Hf. induction names as [|n names IH]; intros acc w inst Hin Hs Ha Hl;
    [destruct Hin|].
  simpl. unfold bind.
  destruct (save_field classes S c self acc n w) as [[acc'|e] w1] eqn:E;
    [|eauto].
  destruct Hin as [->|Hin].
  - erewrite save_field_eager_pk in E by eassumption. discriminate.
  - apply preserves_save_field in E; [|exact HS].
    destruct E as (delta & _ & E).
    destruct (E self inst Hs) as (i' & Hs' & _ & Ha' & Hl' & _).
    eapply IH; [exact Hin|exact Hs'| |]; congruence.
Qed.

(** X19.  A row whose flag says that references are held as objects, while
    one of its Foreign fields holds an int pk, cannot be saved: the save
    never returns.  If the fields before that one are no references, it
    raises the AttributeError of reading [pk] off an int, and nothing is
    sent to the Store.  Binding a row object to one Foreign field of a row
    after a pk to another leaves the row in this state. *)
Theorem save_pk_beside_object (depth : nat) (atomic : bool) (self : loc)
    (w : world db) (inst : instance) (c : table) (pre post : list string)
    (f t : string) (blank : bool) (z : Z) :
  objects w !! self = Some inst ->
  classes !! cls inst = Some c ->
  field_names c = pre ++ f :: post ->
  assoc f (dict c) = Some (AField (Foreign t blank)) ->
  attrs inst !! attr_name f = Some (VInt z) ->
  is_reference_lazy_loaded inst = Some false ->
  (exists e w', save classes (S depth) atomic self w = (Raise e, w')) /\
  (Forall (plain_field c (objects w) inst) pre ->
   save classes (S depth) atomic self w
   = (Raise (Uncaught AttributeError "object has no attribute pk"), w)).
Proof.
  intros Hs Hc Hn Hf Ha Hl. split.
  - destruct (loop_eager_pk (save classes depth true) c t blank f self z
                (field_names c) (fun l => preserves_save classes depth true l) Hf
                [] w inst) as (e & w' & E); try assumption.
    { rewrite Hn. apply in_or_app. right. left. reflexivity. }
    exists e, w'. simpl. unfold bind at 1.
    unfold collect_values, bind, class_of, bind, read. rewrite Hs, Hc.
    unfold ret at 1. rewrite E. reflexivity.
  - intros Hp. eapply save_stuck_at; try eassumption. intros acc.
    eapply save_field_eager_pk; eassumption.
Qed.

End HeldAsPk.

Lemma save_pk_beside_object_witness :
  save library 3 true 0%nat torn_world
  = (Raise (Uncaught AttributeError "object has no attribute pk"), torn_world).
Proof.
  apply (proj2 (save_pk_beside_object library 2 true 0%nat torn_world torn_book
                  Book ["title"] [] "author" "Author" true 7
                  eq_refl eq_refl eq_refl eq_refl eq_refl eq_refl)).
  constructor; [|constructor].
  exists (String_ (mk_cfg false (VStr "") None)), [VStr "T"].
  repeat split.
Defined.

Section Lazily.

Context {db : Store} (classes : gmap string table).



End Lazily.

